(** * unicode-gacha: the Unicode index and the weighted pool of [src/lib/unicode.ts]

    A shallow embedding of the loader, the lookup index, the card formatter
    and the weighted pool, followed by the properties the specification
    states about them.

    Numbers.  The program's numbers are IEEE doubles.  Code points, loop
    counters and hashes are integers, exact in a double below 2^53, and are
    modelled in [Z]; [NaN] is the [None] of [option Z].  ([parseInt] rounds a
    digit string too long for a double; the model keeps its value exact, which
    no comparison with a scan bound or a code point below 2^53 can tell
    apart.)  Weights and random values are fractions: they are modelled as
    binary64 floating-point numbers, the kernel's [float], whose operations
    round as the program's do.

    Strings.  A JavaScript string is a sequence of UTF-16 code units and is
    modelled as [list Z].  [undefined], the value of an array read past the
    end, is the [None] of [option]. *)

From Stdlib Require Import ZArith Lia Ascii String Floats.
From stdpp Require Import gmap list.

Local Open Scope Z_scope.

(** ** The JavaScript built-ins the program calls *)

Module JS.

Abbreviation jsstring := (list Z) (only parsing).

(** Code unit of an ASCII character, and the string of a literal. *)
Definition cu (a : ascii) : Z := Z.of_N (N_of_ascii a).

Definition lit (s : string) : jsstring := cu <$> list_ascii_of_string s.

(** [ToString] of a value that is a string or [undefined], as a template
    literal or [parseInt] applies it. *)
Definition ToString (v : option jsstring) : jsstring :=
  match v with
  | Some s => s
  | None => lit "undefined"
  end.

(** [v || d] for a string or [undefined] [v]: [undefined] and the empty
    string are falsy. *)
Definition orElse (v : option jsstring) (d : jsstring) : jsstring :=
  match v with
  | Some (c :: s) => c :: s
  | _ => d
  end.

(** A call that may raise: the only exception the modelled code can raise by
    itself is the [TypeError] of a method called on [undefined]. *)
Inductive result (A : Type) : Type :=
  | Ok (a : A)
  | TypeError.
Arguments Ok {A} a.
Arguments TypeError {A}.

Definition bind {A B} (r : result A) (k : A → result B) : result B :=
  match r with
  | Ok a => k a
  | TypeError => TypeError
  end.

Fixpoint mapM {A B} (f : A → result B) (l : list A) : result (list B) :=
  match l with
  | [] => Ok []
  | x :: l' => bind (f x) (λ y, bind (mapM f l') (λ ys, Ok (y :: ys)))
  end.

(** How a loop ended. *)
Inductive outcome : Type := Completed | Threw.

(** [for (const x of l) body]: the body updates the loop's state or raises;
    when it raises the loop stops with the state reached so far (the bodies
    modelled here raise before they write). *)
Fixpoint forOf {S A} (body : S → A → result S) (s : S) (l : list A) : S * outcome :=
  match l with
  | [] => (s, Completed)
  | x :: l' =>
      match body s x with
      | Ok s' => forOf body s' l'
      | TypeError => (s, Threw)
      end
  end.

(** Comparisons of a possibly-[NaN] number with a number: false on [NaN]. *)
Definition ltNum (a : option Z) (b : Z) : bool :=
  match a with Some x => x <? b | None => false end.

Definition gtNum (a : option Z) (b : Z) : bool :=
  match a with Some x => b <? x | None => false end.

(** [b >= a] and [b <= a] with the possibly-[NaN] number on the right. *)
Definition geNum (b : Z) (a : option Z) : bool :=
  match a with Some x => x <=? b | None => false end.

Definition leNum (b : Z) (a : option Z) : bool :=
  match a with Some x => b <=? x | None => false end.

(** [a[i]] for an array [a] and a number [i]. *)
Definition index {A} (a : list A) (i : Z) : option A :=
  if i <? 0 then None else a !! Z.to_nat i.

(** White space and line terminators, as [trim] and [parseInt] skip them. *)
Definition isWhiteSpace (c : Z) : bool :=
  ((9 <=? c) && (c <=? 13)) || (c =? 32) || (c =? 160) || (c =? 5760)
  || ((8192 <=? c) && (c <=? 8202)) || (c =? 8232) || (c =? 8233)
  || (c =? 8239) || (c =? 8287) || (c =? 12288) || (c =? 65279).

Fixpoint dropWhile {A} (p : A → bool) (l : list A) : list A :=
  match l with
  | [] => []
  | x :: l' => if p x then dropWhile p l' else l
  end.

Fixpoint takeWhile {A} (p : A → bool) (l : list A) : list A :=
  match l with
  | [] => []
  | x :: l' => if p x then x :: takeWhile p l' else []
  end.

Definition trimStart (s : jsstring) : jsstring := dropWhile isWhiteSpace s.

Definition trim (s : jsstring) : jsstring :=
  reverse (dropWhile isWhiteSpace (reverse (trimStart s))).

(** Value of a hexadecimal digit. *)
Definition hexValue (c : Z) : option Z :=
  if (48 <=? c) && (c <=? 57) then Some (c - 48)
  else if (97 <=? c) && (c <=? 102) then Some (c - 87)
  else if (65 <=? c) && (c <=? 70) then Some (c - 55)
  else None.

Definition isHexDigit (c : Z) : bool :=
  match hexValue c with Some _ => true | None => false end.

Definition digitsValue (ds : jsstring) : Z :=
  foldl (λ acc c, 16 * acc + default 0 (hexValue c)) 0 ds.

(** [parseInt(s, 16)]: leading white space, an optional sign, an optional
    [0x] or [0X], then the longest run of hexadecimal digits; [NaN] when that
    run is empty. *)
Definition parseInt16 (s : jsstring) : option Z :=
  let s1 := trimStart s in
  let '(sign, s2) :=
    match s1 with
    | 45 :: t => (-1, t)
    | 43 :: t => (1, t)
    | _ => (1, s1)
    end in
  let s3 :=
    match s2 with
    | 48 :: x :: t => if (x =? 120) || (x =? 88) then t else s2
    | _ => s2
    end in
  match takeWhile isHexDigit s3 with
  | [] => None
  | ds => Some (sign * digitsValue ds)
  end.

(** Digit character of a value below 16, in lower case. *)
Definition hexChar (d : Z) : Z := if d <? 10 then 48 + d else 87 + d.

Fixpoint hexDigits (fuel : nat) (n : Z) (acc : jsstring) : jsstring :=
  match fuel with
  | O => acc
  | S fuel' =>
      let acc' := hexChar (n `mod` 16) :: acc in
      if n `div` 16 =? 0 then acc' else hexDigits fuel' (n `div` 16) acc'
  end.

(** [n.toString(16)] for an integer [n]. *)
Definition toString16 (n : Z) : jsstring :=
  if n <? 0 then 45 :: hexDigits (S (Z.to_nat (Z.log2 (- n)))) (- n) []
  else hexDigits (S (Z.to_nat (Z.log2 n))) n [].

(** [toUpperCase].  The case mapping of code units outside ASCII belongs to
    the runtime's Unicode tables; they are left as they are here (the data
    files that reach this call are ASCII). *)
Definition upperUnit (c : Z) : Z :=
  if (97 <=? c) && (c <=? 122) then c - 32 else c.

Definition toUpperCase (s : jsstring) : jsstring := upperUnit <$> s.

(** [s.padStart(n, "0")]. *)
Definition padStart0 (n : nat) (s : jsstring) : jsstring :=
  replicate (n - length s) 48 ++ s.

Fixpoint startsWith (s p : jsstring) {struct p} : bool :=
  match p, s with
  | [], _ => true
  | _ :: _, [] => false
  | a :: p', b :: s' => (a =? b) && startsWith s' p'
  end.

Definition endsWith (s p : jsstring) : bool :=
  startsWith (reverse s) (reverse p).

Fixpoint includes (s p : jsstring) : bool :=
  startsWith s p ||
  match s with
  | [] => false
  | _ :: s' => includes s' p
  end.

(** [s.slice(from, to)] with the clamping of negative and large arguments. *)
Definition clampIndex (len i : Z) : Z :=
  if i <? 0 then Z.max (len + i) 0 else Z.min i len.

Definition slice (s : jsstring) (from to : Z) : jsstring :=
  let len := Z.of_nat (length s) in
  let a := clampIndex len from in
  let b := clampIndex len to in
  take (Z.to_nat (b - a)) (drop (Z.to_nat a) s).

Definition sliceFrom (s : jsstring) (from : Z) : jsstring :=
  slice s from (Z.of_nat (length s)).

(** [s.split(sep)] for a non-empty separator: [skip] counts the code units
    of a matched separator that are still to be passed over. *)
Fixpoint splitGo (sep : jsstring) (skip : nat) (cur : jsstring) (s : jsstring)
  : list jsstring :=
  match s with
  | [] => [reverse cur]
  | c :: s' =>
      match skip with
      | S k => splitGo sep k cur s'
      | O =>
          if startsWith s sep
          then reverse cur :: splitGo sep (length sep - 1) [] s'
          else splitGo sep 0 (c :: cur) s'
      end
  end.

Definition split (s sep : jsstring) : list jsstring := splitGo sep 0 [] s.

(** [s.replace(p, "")] for a string pattern: the first occurrence goes. *)
Fixpoint removeFirst (s p : jsstring) : jsstring :=
  if startsWith s p then drop (length p) s
  else match s with
       | [] => []
       | c :: s' => c :: removeFirst s' p
       end.

(** [a.join(sep)]. *)
Fixpoint join (sep : jsstring) (a : list jsstring) : jsstring :=
  match a with
  | [] => []
  | [x] => x
  | x :: a' => x ++ sep ++ join sep a'
  end.

(** [String.fromCharCode(n)]: the code unit [n] modulo 2^16. *)
Definition fromCharCode (n : Z) : jsstring := [n `mod` 65536].

(** [x << 5] on a number holding an integer: the 32-bit two's complement
    wrap of [32 * x]. *)
Definition toInt32 (x : Z) : Z := (x + 2147483648) `mod` 4294967296 - 2147483648.

Definition shl5 (x : Z) : Z := toInt32 (Z.shiftl (toInt32 x) 5).

End JS.

Import JS.

(** ** [src/lib/unicode.ts] *)

Module Unicode.

Record CJKReading : Type := {
  field : option jsstring;
  text : option jsstring;
}.

Record CJKData : Type := {
  readings : list CJKReading;
}.

(** The string fields are read from the array of a [split] by position, so
    each is [undefined] on a line with too few fields. *)
Record CodePointData : Type := {
  id : option Z;
  name : option jsstring;
  general_category : option jsstring;
  canonical_combining_class : option jsstring;
  bidi_class : option jsstring;
  decomposition_type : option jsstring;
  decomposition_mapping : option jsstring;
  numeric_type : option jsstring;
  numeric_value : option jsstring;
  bidi_mirrored : option jsstring;
  unicode_1_name : option jsstring;
  iso_comment : option jsstring;
  simple_uppercase_mapping : option jsstring;
  simple_lowercase_mapping : option jsstring;
  simple_titlecase_mapping : option jsstring;
}.

(** The fields [id], [start], [end], [name] and [color] of [BlockData];
    projections of different records cannot share a name, so they carry the
    record's name in front, as do [id] of [PoolItem] and [id] and [name] of
    [CardData].  [start] and [end] are results of [parseInt]. *)
Record BlockData : Type := {
  block_id : Z;
  block_start : option Z;
  block_end : option Z;
  block_name : option jsstring;
  block_color : jsstring;
}.

Record PoolItem : Type := {
  item_id : Z;
  weight : float;
}.

Record CardData : Type := {
  card_id : Z;
  card_name : option jsstring;
  description : jsstring;
  char : jsstring;
  blockName : jsstring;
  blockColor : jsstring;
}.

(** The three private members of [class UnicodeData].  The keys of [data]
    are numbers that passed the [isNaN] test; [loadCJKData] stores under
    whatever [parseInt] returned, [NaN] included. *)
Record UnicodeData : Type := {
  data : gmap Z CodePointData;
  blocks : list BlockData;
  cjkData : gmap (option Z) CJKData;
}.

Definition newUnicodeData : UnicodeData :=
  {| data := ∅; blocks := []; cjkData := ∅ |}.

Definition parseCodePoint (line : jsstring) : CodePointData :=
  let codePointList := split line (lit ";") in
  {| id := parseInt16 (ToString (codePointList !! 0%nat));
     name := codePointList !! 1%nat;
     general_category := codePointList !! 2%nat;
     canonical_combining_class := codePointList !! 3%nat;
     bidi_class := codePointList !! 4%nat;
     decomposition_type := codePointList !! 5%nat;
     decomposition_mapping := codePointList !! 6%nat;
     numeric_type := codePointList !! 7%nat;
     numeric_value := codePointList !! 8%nat;
     bidi_mirrored := codePointList !! 9%nat;
     unicode_1_name := codePointList !! 10%nat;
     iso_comment := codePointList !! 11%nat;
     simple_uppercase_mapping := codePointList !! 12%nat;
     simple_lowercase_mapping := codePointList !! 13%nat;
     simple_titlecase_mapping := codePointList !! 14%nat |}.

Definition parseBlock (line : jsstring) : BlockData :=
  let blockList := split line (lit ";") in
  let blockRange := split (ToString (blockList !! 0%nat)) (lit "..") in
  let blockStart := parseInt16 (ToString (blockRange !! 0%nat)) in
  let blockEnd := parseInt16 (ToString (blockRange !! 1%nat)) in
  let blockName := blockList !! 1%nat in
  {| block_id := 0; block_start := blockStart; block_end := blockEnd;
     block_name := blockName; block_color := [] |}.

Definition parseCJKReading (line : jsstring) : option Z * CJKReading :=
  let cjkReadingList := split line [9] in
  let codePoint :=
    parseInt16 (removeFirst (ToString (cjkReadingList !! 0%nat)) (lit "U+")) in
  (codePoint, {| field := cjkReadingList !! 1%nat; text := cjkReadingList !! 2%nat |}).

(** The arrow function [mod] of [loadBlocks]; [%] is the remainder that takes
    the sign of the dividend. *)
Definition mod_ (n m : Z) : Z := Z.rem (Z.rem n m + m) m.

(** [name.split("").reduce((hash, char) => ((hash << 5) - hash) + char.charCodeAt(0), 0)]:
    [split("")] yields one string per code unit and [charCodeAt(0)] is that
    unit.  Only the shift wraps; the subtraction and the addition are those
    of doubles, exact here since each step moves the hash by less than
    2^31 + 2^16. *)
Definition nameHash (name : jsstring) : Z :=
  foldl (λ hash char, (shl5 hash - hash) + char) 0 name.

Definition blockColorOf (name : jsstring) : jsstring :=
  lit "#" ++ padStart0 6 (toString16 (mod_ (nameHash name) 0xFFFFFF)).

Definition skippedLine (line : jsstring) : bool :=
  startsWith line (lit "#") || bool_decide (trim line = []).

(** [loadBlocks], given the content of [Blocks.txt].  The loop's state is the
    block list and the next block id. *)
Definition loadBlocksBody (st : list BlockData * Z) (line : jsstring)
  : result (list BlockData * Z) :=
  let '(blocks, blockID) := st in
  if skippedLine line then Ok st
  else
    let blockData := parseBlock line in
    match block_name blockData with
    | None => TypeError
    | Some name =>
        let color := blockColorOf name in
        Ok (blocks ++ [ {| block_id := blockID;
                           block_start := block_start blockData;
                           block_end := block_end blockData;
                           block_name := block_name blockData;
                           block_color := color |} ],
            blockID + 1)
    end.

Definition loadBlocks (fileContent : jsstring) (u : UnicodeData) : UnicodeData * outcome :=
  let lines := split fileContent [10] in
  let '((blocks', _), o) := forOf loadBlocksBody ([], 0) lines in
  ({| data := data u; blocks := blocks'; cjkData := cjkData u |}, o).

(** [loadCJKData], given the content of the readings file. *)
Definition loadCJKDataBody (cjk : gmap (option Z) CJKData) (line : jsstring)
  : result (gmap (option Z) CJKData) :=
  if skippedLine line then Ok cjk
  else
    let '(id, reading) := parseCJKReading line in
    let cjk1 :=
      match cjk !! id with
      | None => <[id := {| readings := [] |}]> cjk
      | Some _ => cjk
      end in
    match cjk1 !! id with
    | None => TypeError
    | Some d => Ok (<[id := {| readings := readings d ++ [reading] |}]> cjk1)
    end.

Definition loadCJKData (fileContent : jsstring) (u : UnicodeData) : UnicodeData * outcome :=
  let lines := split fileContent [10] in
  let '(cjk, o) := forOf loadCJKDataBody ∅ lines in
  ({| data := data u; blocks := blocks u; cjkData := cjk |}, o).

Definition initials : list jsstring :=
  lit <$> ["g"; "gg"; "n"; "d"; "dd"; "r"; "m"; "b"; "bb"; "s"; "ss"; "";
           "j"; "jj"; "ch"; "k"; "t"; "p"; "h"]%string.

Definition vowels : list jsstring :=
  lit <$> ["a"; "ae"; "ya"; "yae"; "eo"; "e"; "yeo"; "ye"; "o"; "wa"; "wae";
           "oe"; "yo"; "u"; "weo"; "we"; "wi"; "yu"; "eu"; "ui"; "i"]%string.

Definition finals : list jsstring :=
  lit <$> [""; "g"; "gg"; "gs"; "n"; "nj"; "nh"; "d"; "l"; "lg"; "lm"; "lb";
           "ls"; "lt"; "lp"; "lh"; "m"; "b"; "bs"; "s"; "ss"; "ng"; "j"; "ch";
           "k"; "t"; "p"; "h"]%string.

Definition getHangulSyllableName (id : Z) : jsstring :=
  let order := id - 0xAC00 in
  let initial := index initials (order `div` 588) in
  let vowel := index vowels ((order `rem` 588) `div` 28) in
  let final := index finals (order `rem` 28) in
  ToString initial ++ ToString vowel ++ ToString final.

(** [{ ...codePointData }] with [id] and [name] reassigned. *)
Definition withIdName (c : CodePointData) (newId : Z) (newName : jsstring) : CodePointData :=
  {| id := Some newId;
     name := Some newName;
     general_category := general_category c;
     canonical_combining_class := canonical_combining_class c;
     bidi_class := bidi_class c;
     decomposition_type := decomposition_type c;
     decomposition_mapping := decomposition_mapping c;
     numeric_type := numeric_type c;
     numeric_value := numeric_value c;
     bidi_mirrored := bidi_mirrored c;
     unicode_1_name := unicode_1_name c;
     iso_comment := iso_comment c;
     simple_uppercase_mapping := simple_uppercase_mapping c;
     simple_lowercase_mapping := simple_lowercase_mapping c;
     simple_titlecase_mapping := simple_titlecase_mapping c |}.

(** The name [addRange] gives to code point [id] of a range. *)
Definition rangeItemName (rangeName : jsstring) (id : Z) : jsstring :=
  if includes rangeName (lit "Hangul")
  then toUpperCase (rangeName ++ lit " " ++ getHangulSyllableName id)
  else toUpperCase (rangeName ++ lit " " ++ toString16 id).

(** [addRange]: [for (let id = rangeFirst; id <= rangeLast; id++)] visits
    [rangeFirst], ..., [rangeLast] in order, and no id when
    [rangeLast < rangeFirst]. *)
Definition addRange (rangeFirst rangeLast : Z) (rangeName : jsstring)
    (codePointData : CodePointData) (d : gmap Z CodePointData) : gmap Z CodePointData :=
  foldl (λ d id, <[id := withIdName codePointData id (rangeItemName rangeName id)]> d)
        d (seqZ rangeFirst (rangeLast - rangeFirst + 1)).

(** The body of the loop of [addUnicodeData]; its state is the pending range
    start and the code-point map. *)
Definition addUnicodeDataBody (rangeStart rangeEnd : Z)
    (st : Z * gmap Z CodePointData) (line : jsstring)
  : result (Z * gmap Z CodePointData) :=
  let '(rangeFirst, d) := st in
  if startsWith line (lit "#") then Ok st
  else
    let codePointData := parseCodePoint line in
    if ltNum (id codePointData) rangeStart || gtNum (id codePointData) rangeEnd then Ok st
    else
      match id codePointData with
      | None => Ok st
      | Some cid =>
          match name codePointData with
          | None => TypeError
          | Some nm =>
              if endsWith nm (lit ">") then
                if endsWith nm (lit "First>") then Ok (cid, d)
                else if endsWith nm (lit "Last>") then
                  let rangeLast := cid in
                  let rangeName := slice nm 1 (-7) in
                  if includes rangeName (lit "CJK") || includes rangeName (lit "Hangul")
                  then Ok (rangeFirst, addRange rangeFirst rangeLast rangeName codePointData d)
                  else Ok st
                else Ok st
              else Ok (rangeFirst, <[cid := codePointData]> d)
          end
      end.

(** The loop of [addUnicodeData] over the lines of the file, from
    [rangeFirst = 0]. *)
Definition loadCodePoints (rangeStart rangeEnd : Z) (fileContent : jsstring)
    (d : gmap Z CodePointData) : gmap Z CodePointData * outcome :=
  let lines := split fileContent [10] in
  let '((_, d'), o) := forOf (addUnicodeDataBody rangeStart rangeEnd) (0, d) lines in
  (d', o).

(** [addUnicodeData(rangeStart, rangeEnd)], given the content of
    [UnicodeData.txt]. *)
Definition addUnicodeData (rangeStart rangeEnd : Z) (fileContent : jsstring)
    (u : UnicodeData) : UnicodeData * outcome :=
  let '(d', o) := loadCodePoints rangeStart rangeEnd fileContent (data u) in
  ({| data := d'; blocks := blocks u; cjkData := cjkData u |}, o).

Definition getCodePoint (u : UnicodeData) (id : Z) : option CodePointData :=
  data u !! id.

Fixpoint firstBlock (bs : list BlockData) (codePoint : Z) : option BlockData :=
  match bs with
  | [] => None
  | block :: bs' =>
      if geNum codePoint (block_start block) && leNum codePoint (block_end block)
      then Some block
      else firstBlock bs' codePoint
  end.

Definition getBlock (u : UnicodeData) (codePoint : Z) : option BlockData :=
  if (length (blocks u) =? 0)%nat then None else firstBlock (blocks u) codePoint.

Definition getCJKReading (u : UnicodeData) (id : Z) : list CJKReading :=
  match cjkData u !! Some id with
  | None => []
  | Some d => readings d
  end.

(** One line of the description per reading; [reading.field.slice(1)] raises
    on an [undefined] field. *)
Definition readingLine (reading : CJKReading) : result jsstring :=
  match field reading with
  | None => TypeError
  | Some f => Ok (sliceFrom f 1 ++ lit ": " ++ ToString (text reading))
  end.

Definition getCardData (u : UnicodeData) (id : Z) : result (option CardData) :=
  match getCodePoint u id with
  | None => Ok None
  | Some codePointData =>
      let cjkReadings := getCJKReading u id in
      let description := lit "Name: " ++ ToString (name codePointData) in
      let block := getBlock u id in
      let description :=
        description ++ [10] ++ lit "Block: "
                    ++ orElse (block ≫= block_name) (lit "Unknown") in
      bind (mapM readingLine cjkReadings) (λ lines,
        let description := description ++ [10] ++ join [10] lines in
        Ok (Some {| card_id := id;
                    card_name := name codePointData;
                    description := description;
                    char := fromCharCode id;
                    blockName := orElse (block ≫= block_name) [];
                    blockColor := orElse (block_color <$> block) (lit "#ffffff") |}))
  end.

(** *** [class Pool]

    A pool refers to its index; the record holds the index itself.  Nothing
    below writes to an index that a pool shares with its creator: the one
    write after construction, the load in the earlier variant's
    [initialize], happens only when the flag is unset, that is on an index
    the constructor made. *)

Record Pool : Type := {
  items : list PoolItem;
  unicodeData : UnicodeData;
  unicodeDataInitialized : bool;
}.

(** The constructor; [moduleUnicodeData] is the module-level variable
    [unicodeData], unset until [initUnicodeData] assigns it. *)
Definition newPool (moduleUnicodeData unicodeDataParam : option UnicodeData) : Pool :=
  match unicodeDataParam with
  | None =>
      match moduleUnicodeData with
      | None => {| items := []; unicodeData := newUnicodeData; unicodeDataInitialized := false |}
      | Some u => {| items := []; unicodeData := u; unicodeDataInitialized := true |}
      end
  | Some u => {| items := []; unicodeData := u; unicodeDataInitialized := true |}
  end.

Definition addItem (p : Pool) (item : PoolItem) : Pool :=
  {| items := items p ++ [item];
     unicodeData := unicodeData p;
     unicodeDataInitialized := unicodeDataInitialized p |}.

(** The inner loop of [draw]: the first item whose weight exceeds what is
    left of the random value, or none when the list is exhausted. *)
Fixpoint scan (randomValue : float) (l : list PoolItem) : option PoolItem :=
  match l with
  | [] => None
  | item :: l' =>
      if (randomValue <? weight item)%float then Some item
      else scan (randomValue - weight item)%float l'
  end.

(** [this.items.reduce((sum, item) => sum + item.weight, 0)]. *)
Definition totalWeight (l : list PoolItem) : float :=
  foldl (λ sum item, (sum + weight item)%float) 0%float l.

(** [draw(amount)].  [random i] is the value [Math.random()] returns at its
    [i]-th call of this [draw], one call per iteration of the outer loop. *)
Definition draw (p : Pool) (amount : Z) (random : nat → float) : list PoolItem :=
  if (length (items p) =? 0)%nat || (amount <=? 0) then []
  else
    let total := totalWeight (items p) in
    foldl (λ results i,
             match scan (random i * total)%float (items p) with
             | Some item => results ++ [item]
             | None => results
             end)
          [] (seq 0 (Z.to_nat amount)).

(** *** [class UnicodeBMPPool] *)

Definition initializeBody (p : Pool) (id : Z) : Pool :=
  match getCodePoint (unicodeData p) id with
  | None => p
  | Some _ => addItem p {| item_id := id; weight := 1%float |}
  end.

Definition initialize (p : Pool) : Pool :=
  foldl initializeBody p (seqZ 0 65536).

(** [initUnicodeData], given the contents of the three files; the result is
    also what the module-level variable holds afterwards.  An exception in a
    loader ends the call there. *)
Definition initUnicodeData (unicodeTxt blocksTxt cjkTxt : jsstring) : UnicodeData * outcome :=
  match addUnicodeData 0 65535 unicodeTxt newUnicodeData with
  | (u1, Threw) => (u1, Threw)
  | (u1, Completed) =>
      match loadBlocks blocksTxt u1 with
      | (u2, Threw) => (u2, Threw)
      | (u2, Completed) => loadCJKData cjkTxt u2
      end
  end.

(** [drawCard(amount)]: the card of every drawn item, in order.  The cast
    [as CardData] does nothing at run time: an absent card stays absent, and
    an exception of [getCardData] ends the call. *)
Definition drawCard (p : Pool) (amount : Z) (random : nat → float)
  : result (list (option CardData)) :=
  mapM (λ item, getCardData (unicodeData p) (item_id item)) (draw p amount random).

End Unicode.

(** ** The earlier variant of the library, [src/unnamed/part_000]

    Its [parseLine], [getHangulSyllableName], [addRange], [addUnicodeData] and
    [getCodePoint] are, line for line, [parseCodePoint] and the functions of
    the same names above; its [UnicodeData] has the code-point map as its
    only member.  What differs is the pool: the items carry display fields,
    and [UnicodeBMPPool] owns the index, the flag and the constructor. *)

Module Part000.

Import Unicode.

Record PoolItem : Type := {
  id : Z;
  name : option jsstring;
  description : jsstring;
  char : jsstring;
  weight : float;
}.

Record UnicodeBMPPool : Type := {
  items : list PoolItem;
  unicodeData : gmap Z CodePointData;
  unicodeDataInitialized : bool;
}.

Definition newUnicodeBMPPool (moduleUnicodeData unicodeDataParam : option (gmap Z CodePointData))
  : UnicodeBMPPool :=
  match unicodeDataParam with
  | None =>
      match moduleUnicodeData with
      | None => {| items := []; unicodeData := ∅; unicodeDataInitialized := false |}
      | Some u => {| items := []; unicodeData := u; unicodeDataInitialized := true |}
      end
  | Some u => {| items := []; unicodeData := u; unicodeDataInitialized := true |}
  end.

Definition addItem (p : UnicodeBMPPool) (item : PoolItem) : UnicodeBMPPool :=
  {| items := items p ++ [item];
     unicodeData := unicodeData p;
     unicodeDataInitialized := unicodeDataInitialized p |}.

Definition initializeBody (p : UnicodeBMPPool) (id : Z) : UnicodeBMPPool :=
  match unicodeData p !! id with
  | None => p
  | Some codePointData =>
      addItem p {| id := id; name := Unicode.name codePointData; description := [];
                   char := fromCharCode id; weight := 1%float |}
  end.

(** [initialize], given the content of [UnicodeData.txt] that
    [addUnicodeData] would read.  An exception in the loader leaves the flag
    unset and ends the call. *)
Definition initialize (fileContent : jsstring) (p : UnicodeBMPPool) : UnicodeBMPPool * outcome :=
  let '(p1, o) :=
    if unicodeDataInitialized p then (p, Completed)
    else
      match loadCodePoints 0 65535 fileContent (unicodeData p) with
      | (d, Completed) =>
          ({| items := items p; unicodeData := d; unicodeDataInitialized := true |}, Completed)
      | (d, Threw) =>
          ({| items := items p; unicodeData := d; unicodeDataInitialized := false |}, Threw)
      end in
  match o with
  | Threw => (p1, Threw)
  | Completed => (foldl initializeBody p1 (seqZ 0 65536), Completed)
  end.

End Part000.

(** ** [src/app/page.tsx] *)

Module Page.

(** The hexadecimal rendering of an id in the card's label,
    [id.toString(16).toUpperCase().padStart(4, '0')]. *)
Definition idHex (id : Z) : jsstring := padStart0 4 (toUpperCase (toString16 id)).

End Page.

(** ** The specification's own words, for comparison with the code *)

Module Spec.

Import Unicode.

(** The romanization tables of section 4.2. *)
Definition initials : list jsstring :=
  lit <$> ["g"; "gg"; "n"; "d"; "dd"; "r"; "m"; "b"; "bb"; "s"; "ss"; "";
           "j"; "jj"; "ch"; "k"; "t"; "p"; "h"]%string.

Definition vowels : list jsstring :=
  lit <$> ["a"; "ae"; "ya"; "yae"; "eo"; "e"; "yeo"; "ye"; "o"; "wa"; "wae";
           "oe"; "yo"; "u"; "weo"; "we"; "wi"; "yu"; "eu"; "ui"; "i"]%string.

Definition finals : list jsstring :=
  lit <$> [""; "g"; "gg"; "gs"; "n"; "nj"; "nh"; "d"; "l"; "lg"; "lm"; "lb";
           "ls"; "lt"; "lp"; "lh"; "m"; "b"; "bs"; "s"; "ss"; "ng"; "j"; "ch";
           "k"; "t"; "p"; "h"]%string.

(** Section 4.2: order = id - 0xAC00, initial index = order div 588, vowel
    index = (order mod 588) div 28, final index = order mod 28; the three
    table entries concatenated. *)
Definition hangulSyllable (id : Z) : option jsstring :=
  let order := id - 0xAC00 in
  i ← initials !! Z.to_nat (order `div` 588);
  v ← vowels !! Z.to_nat ((order `mod` 588) `div` 28);
  f ← finals !! Z.to_nat (order `mod` 28);
  Some (i ++ v ++ f).

(** Section 4.2: the polynomial hash [hash = hash*31 + charCode] from 0. *)
Definition polyHash (name : jsstring) : Z :=
  foldl (λ hash c, hash * 31 + c) 0 name.

(** Section 4.2: that hash reduced modulo 0xFFFFFF by a floor-mod, as six
    zero-padded hexadecimal digits after [#]. *)
Definition blockColor (name : jsstring) : jsstring :=
  lit "#" ++ padStart0 6 (toString16 (polyHash name `mod` 0xFFFFFF)).

(** Modelled from the spec: the re-serialization of section 8, which the
    repository does not contain.  The record's 15 fields are joined by
    semicolons, the id rendered in hexadecimal by [render] and the other 14
    as they are stored. *)
Definition serialize (render : Z → jsstring) (c : CodePointData) : jsstring :=
  join (lit ";")
    (match id c with Some n => render n | None => lit "NaN" end ::
     (ToString <$> [name c; general_category c; canonical_combining_class c;
                    bidi_class c; decomposition_type c; decomposition_mapping c;
                    numeric_type c; numeric_value c; bidi_mirrored c;
                    unicode_1_name c; iso_comment c; simple_uppercase_mapping c;
                    simple_lowercase_mapping c; simple_titlecase_mapping c])).

(** A valid code-point line, by its fields: 15 of them, none holding a
    semicolon, the first a non-empty run of hexadecimal digits. *)
Definition hexString (s : jsstring) : Prop :=
  s ≠ [] ∧ Forall (λ c, isHexDigit c = true) s.

Definition validFields (fields : list jsstring) : Prop :=
  length fields = 15%nat
  ∧ Forall (λ f, 59 ∉ f) fields
  ∧ ∃ f0, fields !! 0%nat = Some f0 ∧ hexString f0.

(** The spelling of code points in [UnicodeData.txt]: upper-case digits, at
    least four of them, and no leading zero beyond the fourth digit. *)
Definition isUpperHexDigit (c : Z) : bool :=
  ((48 <=? c) && (c <=? 57)) || ((65 <=? c) && (c <=? 70)).

Definition canonicalHex (s : jsstring) : Prop :=
  Forall (λ c, isUpperHexDigit c = true) s
  ∧ (4 ≤ length s)%nat
  ∧ ((4 < length s)%nat → s !! 0%nat ≠ Some 48).

(** The two lines of [UnicodeData.txt] that stand for the CJK ideographs,
    the range cut down to 0x4E00..0x4E02 as in section 8. *)
Definition cjkRangeFile : jsstring :=
  lit "4E00;<CJK Ideograph, First>;Lo;0;L;;;;;N;;;;;" ++ [10]
  ++ lit "4E02;<CJK Ideograph, Last>;Lo;0;L;;;;;N;;;;;" ++ [10].

(** The record [addRange] stores at [id] for that range, under the name [nm]. *)
Definition cjkIdeograph (id : Z) (nm : string) : CodePointData :=
  withIdName (parseCodePoint (lit "4E02;<CJK Ideograph, Last>;Lo;0;L;;;;;N;;;;;")) id (lit nm).

(** Section 4.3: one line of the description per reading, the field-tag
    without its leading character, a colon and a space, the text. *)
Definition readingLine (tag text : jsstring) : jsstring :=
  drop 1 tag ++ lit ": " ++ text.

(** The contents of three small data files in the format of the real ones,
    and the index [initUnicodeData] builds from them. *)
Definition sampleUnicodeData : jsstring :=
  lit "0041;LATIN CAPITAL LETTER A;Lu;0;L;;;;;N;;;;0061;" ++ [10] ++ cjkRangeFile.

Definition sampleBlocks : jsstring :=
  lit "# Blocks" ++ [10]
  ++ lit "0000..007F; Basic Latin" ++ [10]
  ++ lit "4E00..9FFF; CJK Unified Ideographs" ++ [10].

Definition sampleReadings : jsstring :=
  lit "U+4E00" ++ [9] ++ lit "kDefinition" ++ [9] ++ lit "one; a, an; alone" ++ [10]
  ++ lit "U+4E00" ++ [9] ++ lit "kMandarin" ++ [9] ++ lit "yi" ++ [10].

Definition sampleIndex : UnicodeData :=
  (initUnicodeData sampleUnicodeData sampleBlocks sampleReadings).1.

(** The pool of section 8: an item of weight 1 and one of weight 3. *)
Definition pool_1_3 : Pool :=
  {| items := [ {| item_id := 1; weight := 1 |}; {| item_id := 2; weight := 3 |} ];
     unicodeData := newUnicodeData;
     unicodeDataInitialized := true |}.

(** A pool whose first item has weight zero. *)
Definition pool_0_2 : Pool :=
  {| items := [ {| item_id := 7; weight := 0 |}; {| item_id := 8; weight := 2 |} ];
     unicodeData := newUnicodeData;
     unicodeDataInitialized := true |}.

(** A pool of three items of weights 0.1, 0.2 and 0.3: the doubles nearest
    to them, written exactly. *)
Definition pool_tenths : Pool :=
  {| items := [ {| item_id := 1; weight := 0x1.999999999999ap-4 |};
                {| item_id := 2; weight := 0x1.999999999999ap-3 |};
                {| item_id := 3; weight := 0x1.3333333333333p-2 |} ];
     unicodeData := newUnicodeData;
     unicodeDataInitialized := true |}.

(** The double 0.9999999999999998, that is 1 - 2^-52. *)
Definition almostOne : float := 0x1.ffffffffffffep-1.

(** A digit string without its leading zeros, the last digit kept. *)
Fixpoint stripZeros (s : jsstring) : jsstring :=
  match s with
  | c :: (_ :: _) as t => if c =? 48 then stripZeros t else s
  | _ => s
  end.

(** The fields of the line of LATIN CAPITAL LETTER A after the code point. *)
Definition latinA : list jsstring :=
  lit <$> ["LATIN CAPITAL LETTER A"; "Lu"; "0"; "L"; ""; ""; ""; ""; "N"; ""; "";
           ""; "0061"; ""]%string.

(** A block contains a code point when both its bounds are numbers and the
    code point lies between them, bounds included. *)
Definition contains (b : BlockData) (codePoint : Z) : Prop :=
  ∃ s e, block_start b = Some s ∧ block_end b = Some e ∧ s ≤ codePoint ≤ e.

(** The lines of a file that are neither comments nor blank. *)
Definition dataLines (fileContent : jsstring) : list jsstring :=
  filter (λ line, skippedLine line = false) (split fileContent [10]).

(** The block a line of [Blocks.txt] stands for, as the [i]-th block. *)
Definition blockOfLine (i : nat) (line : jsstring) : BlockData :=
  {| block_id := Z.of_nat i;
     block_start := block_start (parseBlock line);
     block_end := block_end (parseBlock line);
     block_name := block_name (parseBlock line);
     block_color := blockColorOf (ToString (block_name (parseBlock line))) |}.

(** The letters the vowel table is written with. *)
Definition isVowelLetter (c : Z) : bool :=
  (c =? 97) || (c =? 101) || (c =? 105) || (c =? 111) || (c =? 117)
  || (c =? 119) || (c =? 121).

(** The line of LATIN CAPITAL LETTER A. *)
Definition latinALine : jsstring :=
  lit "0041;LATIN CAPITAL LETTER A;Lu;0;L;;;;;N;;;;0061;".

(** An index of two code points, the second with a reading, and no block. *)
Definition smallIndex : UnicodeData :=
  {| data := <[0x41 := parseCodePoint (lit "0041;LATIN CAPITAL LETTER A;Lu;0;L;;;;;N;;;;0061;")]>
               (<[0x4E00 := cjkIdeograph 0x4E00 "CJK IDEOGRAPH 4E00"]> ∅);
     blocks := [];
     cjkData := {[ Some 0x4E00 :=
                     {| readings := [ {| field := Some (lit "kMandarin");
                                         text := Some (lit "yi") |} ] |} ]} |}.

(** [Math.floor] of a finite double, as an integer: the double is its
    mantissa times two to its exponent, with its sign.  (0 on an infinity or
    [NaN], which have no integer part.) *)
Definition floorSF (x : spec_float) : Z :=
  match x with
  | S754_finite s m e =>
      let n := cond_Zopp s (Z.pos m) in
      if 0 <=? e then n * 2 ^ e else n / 2 ^ (- e)
  | _ => 0
  end.

Definition floor (x : float) : Z := floorSF (Prim2SF x).

(** A pool of ten items of weight 1, with ids 0 to 9. *)
Definition pool_ten : Pool :=
  {| items := (λ id, {| item_id := id; weight := 1 |}) <$> seqZ 0 10;
     unicodeData := smallIndex;
     unicodeDataInitialized := true |}.

(** A pool whose items all have weight 0. *)
Definition pool_0_0 : Pool :=
  {| items := [ {| item_id := 0x41; weight := 0 |}; {| item_id := 0x4E00; weight := 0 |} ];
     unicodeData := smallIndex;
     unicodeDataInitialized := true |}.

End Spec.

Import Unicode.

(** * Properties *)

(** ** Hangul syllable names *)

Lemma index_nonneg {A} (a : list A) (i : Z) :
  0 ≤ i → index a i = a !! Z.to_nat i.
Proof. intros Hi. unfold index. destruct (Z.ltb_spec i 0); [lia | done]. Qed.

Lemma hangul_indices (id : Z) :
  0xAC00 ≤ id ≤ 0xD7A3 →
  let order := id - 0xAC00 in
  0 ≤ order `div` 588 < 19
  ∧ 0 ≤ (order `mod` 588) `div` 28 < 21
  ∧ 0 ≤ order `mod` 28 < 28.
Proof.
  intros Hid order. subst order.
  assert (H588 : 0 ≤ (id - 0xAC00) `mod` 588 < 588) by (apply Z.mod_pos_bound; lia).
  repeat split.
  - apply Z.div_pos; lia.
  - apply Z.div_lt_upper_bound; lia.
  - apply Z.div_pos; lia.
  - apply Z.div_lt_upper_bound; lia.
  - apply Z.mod_pos_bound; lia.
  - apply Z.mod_pos_bound; lia.
Qed.

(** C2.  For every id in [0xAC00, 0xD7A3] the name [getHangulSyllableName]
    returns is the concatenation of the three entries the specification's
    tables hold at (id - 0xAC00) div 588, ((id - 0xAC00) mod 588) div 28 and
    (id - 0xAC00) mod 28; the tables have 19, 21 and 28 entries, the first
    final is the empty string, 0xAC00 is "ga" and 0xD7A3 is "hih". *)
Theorem C2_hangul_syllable_name (id : Z) :
  0xAC00 ≤ id ≤ 0xD7A3 →
  Spec.hangulSyllable id = Some (getHangulSyllableName id)
  ∧ length Spec.initials = 19%nat
  ∧ length Spec.vowels = 21%nat
  ∧ length Spec.finals = 28%nat
  ∧ Spec.finals !! 0%nat = Some []
  ∧ getHangulSyllableName 0xAC00 = lit "ga"
  ∧ getHangulSyllableName 0xD7A3 = lit "hih".
Proof.
  intros Hid.
  split; [| repeat split; reflexivity].
  destruct (hangul_indices id Hid) as (Hi & Hv & Hf).
  unfold Spec.hangulSyllable, getHangulSyllableName.
  change 0xAC00 with 44032 in *.
  set (order := id - 44032) in *.
  assert (Horder : 0 ≤ order) by (subst order; lia).
  rewrite !Z.rem_mod_nonneg by lia.
  rewrite !index_nonneg by lia.
  change Spec.initials with initials.
  change Spec.vowels with vowels.
  change Spec.finals with finals.
  destruct (lookup_lt_is_Some_2 initials (Z.to_nat (order `div` 588))) as [i Ei];
    [change (length initials) with 19%nat; lia |].
  destruct (lookup_lt_is_Some_2 vowels (Z.to_nat ((order `mod` 588) `div` 28))) as [v Ev];
    [change (length vowels) with 21%nat; lia |].
  destruct (lookup_lt_is_Some_2 finals (Z.to_nat (order `mod` 28))) as [f Ef];
    [change (length finals) with 28%nat; lia |].
  rewrite Ei, Ev, Ef. reflexivity.
Qed.

Lemma C2_hangul_syllable_name_witness :
  0xAC00 ≤ 0xB098 ≤ 0xD7A3
  ∧ Spec.hangulSyllable 0xB098 = Some (getHangulSyllableName 0xB098).
Proof.
  split; [lia |].
  apply (C2_hangul_syllable_name 0xB098). lia.
Defined.

(** ** Loops *)

Lemma forOf_invariant {S A} (P : S → Prop) (body : S → A → result S) (l : list A) :
  ∀ s, P s →
       (∀ s x s', x ∈ l → P s → body s x = Ok s' → P s') →
       P (forOf body s l).1.
Proof.
  induction l as [| x l IH]; intros s Hs Hstep; cbn [forOf]; [done |].
  destruct (body s x) as [s' |] eqn:E; [| done].
  apply IH.
  - eapply Hstep; [left | done | done].
  - intros s1 y s1' Hy. apply Hstep. by right.
Qed.

(** ** Hexadecimal digits *)

Lemma hexValue_hexChar (d : Z) : 0 ≤ d < 16 → hexValue (hexChar d) = Some d.
Proof.
  intros Hd.
  assert (Hcases : d = 0 ∨ d = 1 ∨ d = 2 ∨ d = 3 ∨ d = 4 ∨ d = 5 ∨ d = 6 ∨ d = 7
                   ∨ d = 8 ∨ d = 9 ∨ d = 10 ∨ d = 11 ∨ d = 12 ∨ d = 13 ∨ d = 14
                   ∨ d = 15) by lia.
  repeat (destruct Hcases as [-> | Hcases]; [reflexivity |]).
  subst d. reflexivity.
Qed.

Lemma hexValue_bound (c v : Z) : hexValue c = Some v → 0 ≤ v < 16.
Proof.
  unfold hexValue.
  repeat match goal with
         | |- context [if ?b then _ else _] => destruct b eqn:?
         end; intros [= <-]; lia.
Qed.

Lemma digitsValue_snoc (ds : list Z) (c : Z) :
  digitsValue (ds ++ [c]) = 16 * digitsValue ds + default 0 (hexValue c).
Proof. unfold digitsValue. by rewrite foldl_snoc. Qed.

Lemma digitsValue_nonneg (ds : list Z) : 0 ≤ digitsValue ds.
Proof.
  induction ds as [| c ds IH] using rev_ind; [done |].
  rewrite digitsValue_snoc.
  destruct (hexValue c) as [v |] eqn:E; simpl; [| lia].
  apply hexValue_bound in E. lia.
Qed.

(** With enough fuel [hexDigits] puts in front of [acc] the digits of [n]:
    at least one, all hexadecimal, of value [n]. *)
Lemma hexDigits_spec (fuel : nat) : ∀ (n : Z) (acc : list Z),
  0 ≤ n < 2 ^ Z.of_nat fuel → (1 ≤ fuel)%nat →
  ∃ ds, hexDigits fuel n acc = ds ++ acc
        ∧ ds ≠ []
        ∧ Forall (λ c, isHexDigit c = true) ds
        ∧ digitsValue ds = n.
Proof.
  induction fuel as [| fuel IH]; intros n acc Hn Hfuel; [lia |].
  cbn [hexDigits].
  assert (Hd : 0 ≤ n `mod` 16 < 16) by (apply Z.mod_pos_bound; lia).
  assert (Hq : n = 16 * (n `div` 16) + n `mod` 16) by (apply Z.div_mod; lia).
  destruct (Z.eqb_spec (n `div` 16) 0) as [Hz | Hnz].
  - exists [hexChar (n `mod` 16)]. repeat split; [done | |].
    + constructor; [| constructor].
      unfold isHexDigit. by rewrite hexValue_hexChar.
    + unfold digitsValue. cbn. rewrite hexValue_hexChar by done. cbn. lia.
  - assert (Hq0 : 0 ≤ n `div` 16) by (apply Z.div_pos; lia).
    assert (Hpow : 2 ^ Z.of_nat (S fuel) = 2 * 2 ^ Z.of_nat fuel).
    { rewrite Nat2Z.inj_succ, Z.pow_succ_r by lia. done. }
    assert (Hlt : n `div` 16 < 2 ^ Z.of_nat fuel) by lia.
    assert (Hf1 : (1 ≤ fuel)%nat).
    { destruct fuel; [| lia]. cbn in Hlt. lia. }
    destruct (IH (n `div` 16) (hexChar (n `mod` 16) :: acc)) as (ds & E & Hne & Hall & Hval);
      [lia | done |].
    exists (ds ++ [hexChar (n `mod` 16)]). repeat split.
    + rewrite E, <- app_assoc. done.
    + intros Hnil. by destruct ds.
    + apply Forall_app. split; [done |]. constructor; [| constructor].
      unfold isHexDigit. by rewrite hexValue_hexChar.
    + rewrite digitsValue_snoc, Hval, hexValue_hexChar by done. cbn. lia.
Qed.

Lemma log2_fuel (n : Z) : 0 ≤ n → 0 ≤ n < 2 ^ Z.of_nat (S (Z.to_nat (Z.log2 n))).
Proof.
  intros Hn. split; [done |].
  rewrite Nat2Z.inj_succ, Z2Nat.id by apply Z.log2_nonneg.
  destruct (Z.eq_dec n 0) as [-> | Hnz]; [done |].
  apply Z.log2_spec. lia.
Qed.

Lemma toString16_spec (n : Z) :
  0 ≤ n →
  toString16 n ≠ []
  ∧ Forall (λ c, isHexDigit c = true) (toString16 n)
  ∧ digitsValue (toString16 n) = n.
Proof.
  intros Hn. unfold toString16.
  destruct (Z.ltb_spec n 0); [lia |].
  destruct (hexDigits_spec (S (Z.to_nat (Z.log2 n))) n []) as (ds & E & Hne & Hall & Hval);
    [by apply log2_fuel | lia |].
  rewrite E, app_nil_r. done.
Qed.

(** The number of digits [hexDigits] adds. *)
Lemma hexDigits_length (fuel : nat) : ∀ (n : Z) (acc : list Z) (k : nat),
  0 ≤ n < 16 ^ Z.of_nat k → (1 ≤ k)%nat →
  (length (hexDigits fuel n acc) ≤ k + length acc)%nat.
Proof.
  induction fuel as [| fuel IH]; intros n acc k Hn Hk; cbn [hexDigits]; [lia |].
  destruct (Z.eqb_spec (n `div` 16) 0) as [Hz | Hnz]; [cbn; lia |].
  assert (Hq : n = 16 * (n `div` 16) + n `mod` 16) by (apply Z.div_mod; lia).
  assert (Hd : 0 ≤ n `mod` 16 < 16) by (apply Z.mod_pos_bound; lia).
  assert (Hq0 : 0 ≤ n `div` 16) by (apply Z.div_pos; lia).
  destruct k as [| k]; [lia |].
  assert (Hpow : 16 ^ Z.of_nat (S k) = 16 * 16 ^ Z.of_nat k).
  { rewrite Nat2Z.inj_succ, Z.pow_succ_r by lia. done. }
  assert (Hk1 : (1 ≤ k)%nat).
  { destruct k; [| lia]. cbn in Hn. lia. }
  specialize (IH (n `div` 16) (hexChar (n `mod` 16) :: acc) k).
  cbn [length] in IH. lia.
Qed.

(** A string of hexadecimal digits parses to its value. *)
Lemma takeWhile_all {A} (p : A → bool) (l : list A) :
  Forall (λ x, p x = true) l → takeWhile p l = l.
Proof. induction 1 as [| x l Hx _ IH]; cbn; [done |]. by rewrite Hx, IH. Qed.

Lemma hexDigit_plain (c : Z) :
  isHexDigit c = true →
  isWhiteSpace c = false ∧ c ≠ 45 ∧ c ≠ 43 ∧ c ≠ 120 ∧ c ≠ 88.
Proof.
  unfold isHexDigit, hexValue, isWhiteSpace.
  repeat match goal with
         | |- context [Z.leb ?a ?b] => destruct (Z.leb_spec a b)
         end; cbn; try discriminate; intros _;
  repeat match goal with
         | |- context [Z.eqb ?a ?b] => destruct (Z.eqb_spec a b); try lia
         end; cbn; repeat split; lia.
Qed.

Lemma parseInt16_hex (s : list Z) :
  s ≠ [] → Forall (λ c, isHexDigit c = true) s →
  parseInt16 s = Some (digitsValue s).
Proof.
  intros Hne Hall. unfold parseInt16, trimStart.
  destruct Hall as [| c s Hc Hs]; [done |].
  destruct (hexDigit_plain c Hc) as (Hws & Hm & Hp & _).
  cbn [dropWhile]. rewrite Hws.
  assert (Hsign : match c :: s with
                  | 45 :: t => (-1, t)
                  | 43 :: t => (1, t)
                  | _ => (1, c :: s)
                  end = (1, c :: s)).
  { destruct c as [| p | p]; try done.
    do 6 (destruct p as [p | p |]; try done). }
  rewrite Hsign.
  assert (Hpre : match c :: s with
                 | 48 :: x :: t => if (x =? 120) || (x =? 88) then t else c :: s
                 | _ => c :: s
                 end = c :: s).
  { destruct s as [| x t].
    - destruct c as [| p | p]; try done.
      do 6 (destruct p as [p | p |]; try done).
    - apply Forall_cons in Hs as [Hx _].
      destruct (hexDigit_plain x Hx) as (_ & _ & _ & Hx1 & Hx2).
      destruct (Z.eqb_spec x 120); [lia |].
      destruct (Z.eqb_spec x 88); [lia |]. cbn.
      destruct c as [| p | p]; try done.
      do 6 (destruct p as [p | p |]; try done). }
  rewrite Hpre.
  rewrite takeWhile_all by (by constructor).
  f_equal. lia.
Qed.

(** ** Block colours *)

(** The double-remainder [mod] of [loadBlocks] is the floor-mod. *)
Lemma mod__floor (n m : Z) : 0 < m → mod_ n m = n `mod` m.
Proof.
  intros Hm. unfold mod_.
  pose proof (Z.rem_bound_abs n m ltac:(lia)) as Hb.
  pose proof (Z.quot_rem' n m) as Hqr.
  rewrite Z.rem_mod_nonneg by lia.
  replace (n `rem` m + m) with (n + (1 - n `quot` m) * m) by lia.
  apply Z_mod_plus_full.
Qed.

Lemma toInt32_cong (x : Z) : ∃ k, toInt32 x = x + 4294967296 * k.
Proof.
  unfold toInt32.
  exists (- ((x + 2147483648) `div` 4294967296)).
  pose proof (Z.div_mod (x + 2147483648) 4294967296 ltac:(lia)). lia.
Qed.

Lemma shl5_cong (x : Z) : ∃ k, shl5 x = 32 * x + 4294967296 * k.
Proof.
  unfold shl5. rewrite Z.shiftl_mul_pow2 by lia.
  destruct (toInt32_cong x) as [k1 E1].
  destruct (toInt32_cong (toInt32 x * 2 ^ 5)) as [k2 E2].
  exists (32 * k1 + k2). rewrite E2, E1. lia.
Qed.

(** The hash of the code and the polynomial hash of the specification agree
    modulo 2^32, whatever the name. *)
Lemma nameHash_cong (name : list Z) :
  ∃ k, nameHash name = Spec.polyHash name + 4294967296 * k.
Proof.
  unfold nameHash, Spec.polyHash.
  induction name as [| c name IH] using rev_ind; [by exists 0 |].
  rewrite !foldl_snoc. destruct IH as [k IH].
  destruct (shl5_cong (foldl (λ hash char, shl5 hash - hash + char) 0 name)) as [k' E].
  exists (31 * k + k'). rewrite E, IH. lia.
Qed.

(** They are equal as long as no shift leaves the 32-bit range, which is
    the case of every name of at most five ASCII code units. *)
Lemma toInt32_small (x : Z) : - 2147483648 ≤ x < 2147483648 → toInt32 x = x.
Proof.
  intros Hx. unfold toInt32.
  rewrite Z.mod_small by lia. lia.
Qed.

Lemma shl5_small (x : Z) : - 67108864 ≤ x < 67108864 → shl5 x = 32 * x.
Proof.
  intros Hx. unfold shl5.
  rewrite Z.shiftl_mul_pow2 by lia.
  rewrite (toInt32_small x) by lia.
  rewrite toInt32_small by lia. lia.
Qed.

Lemma polyHash_ascii_bound (name : list Z) :
  Forall (λ c, 0 ≤ c < 128) name →
  0 ≤ Spec.polyHash name ≤ 5 * 31 ^ Z.of_nat (length name) - 5.
Proof.
  unfold Spec.polyHash.
  induction name as [| c name IH] using rev_ind; intros Hall; [cbn; lia |].
  apply Forall_app in Hall as [Hall Hc].
  apply Forall_cons in Hc as [Hc _].
  rewrite foldl_snoc, length_app, Nat2Z.inj_add. cbn [length].
  rewrite Z.pow_add_r by lia. change (31 ^ Z.of_nat 1) with 31.
  specialize (IH Hall). lia.
Qed.

Lemma nameHash_short (name : list Z) :
  (length name ≤ 5)%nat → Forall (λ c, 0 ≤ c < 128) name →
  nameHash name = Spec.polyHash name.
Proof.
  induction name as [| c name IH] using rev_ind; intros Hlen Hall; [done |].
  rewrite length_app in Hlen. cbn in Hlen.
  apply Forall_app in Hall as [Hall Hc].
  unfold nameHash, Spec.polyHash in *.
  rewrite !foldl_snoc, IH by (done || lia).
  pose proof (polyHash_ascii_bound name Hall) as Hb.
  unfold Spec.polyHash in Hb.
  assert (31 ^ Z.of_nat (length name) ≤ 31 ^ 4) by (apply Z.pow_le_mono_r; lia).
  rewrite shl5_small by lia. lia.
Qed.

(** X5.  On a name of at most five ASCII code units the colour is the one
    of the specification's polynomial hash. *)
Lemma blockColorOf_short (name : list Z) :
  (length name ≤ 5)%nat → Forall (λ c, 0 ≤ c < 128) name →
  blockColorOf name = Spec.blockColor name.
Proof.
  intros Hlen Hall. unfold blockColorOf, Spec.blockColor.
  rewrite mod__floor, nameHash_short by (done || lia). done.
Qed.

Lemma blockColorOf_short_witness :
  blockColorOf (lit "Thai") = Spec.blockColor (lit "Thai").
Proof.
  apply (blockColorOf_short (lit "Thai")); [cbn; lia |].
  change (lit "Thai") with [84; 104; 97; 105].
  repeat (apply Forall_cons_2; [lia |]). apply Forall_nil_2.
Defined.

Lemma padStart0_hex (k : nat) (s : list Z) :
  Forall (λ c, isHexDigit c = true) s →
  Forall (λ c, isHexDigit c = true) (padStart0 k s).
Proof.
  intros Hs. unfold padStart0. apply Forall_app. split; [| done].
  apply Forall_replicate. reflexivity.
Qed.

Lemma digitsValue_zeros (k : nat) (s : list Z) :
  digitsValue (replicate k 48 ++ s) = digitsValue s.
Proof.
  unfold digitsValue. rewrite foldl_app.
  replace (foldl (λ acc c, 16 * acc + default 0 (hexValue c)) 0 (replicate k 48)) with 0; [done |].
  induction k as [| k IH]; [done |]. cbn. exact IH.
Qed.

(** Every block [loadBlocks] stores has a name, and the colour computed
    from it. *)
Lemma loadBlocks_colors (fileContent : list Z) (u : UnicodeData) (b : BlockData) :
  b ∈ blocks (loadBlocks fileContent u).1 →
  ∃ nm, block_name b = Some nm ∧ block_color b = blockColorOf nm.
Proof.
  unfold loadBlocks.
  pose proof (forOf_invariant
    (λ st : list BlockData * Z,
       ∀ b, b ∈ st.1 → ∃ nm, block_name b = Some nm ∧ block_color b = blockColorOf nm)
    loadBlocksBody (split fileContent [10]) ([], 0)) as Hinv.
  destruct (forOf loadBlocksBody ([], 0) (split fileContent [10])) as [[bs bid] o].
  cbn [fst blocks] in *. apply Hinv.
  - intros b' Hin. by apply elem_of_nil in Hin.
  - clear. intros [bs bid] line st' _ Hbs. unfold loadBlocksBody.
    destruct (skippedLine line); [intros [= <-]; exact Hbs |].
    destruct (block_name (parseBlock line)) as [nm |] eqn:Enm; [| discriminate].
    intros [= <-]. cbn [fst] in *. intros b' Hin.
    apply elem_of_app in Hin as [Hin | Hin]; [by apply Hbs |].
    apply list_elem_of_singleton in Hin as ->. by exists nm.
Qed.

(** C8 (as amended).  The colour the block loader gives a block is a function
    of its name: for every block name the colour is [#] followed by
    exactly six hexadecimal digits, the zero-padded rendering of the hash
    reduced by a floor-mod modulo 0xFFFFFF, a value in [0, 0xFFFFFE] that the
    digits parse back to; the hash is the fold of
    [hash = (hash << 5) - hash + charCode] from 0, whose shift wraps to 32
    bits, so that it agrees with the fold of [hash*31 + charCode] modulo
    2^32. *)
Theorem C8_block_color (name : list Z) :
  (∀ fileContent u b,
     b ∈ blocks (loadBlocks fileContent u).1 → block_name b = Some name →
     block_color b = blockColorOf name)
  ∧ blockColorOf name = lit "#" ++ padStart0 6 (toString16 (nameHash name `mod` 0xFFFFFF))
  ∧ 0 ≤ nameHash name `mod` 0xFFFFFF ≤ 0xFFFFFE
  ∧ length (blockColorOf name) = 7%nat
  ∧ parseInt16 (drop 1 (blockColorOf name)) = Some (nameHash name `mod` 0xFFFFFF)
  ∧ nameHash name `mod` 2 ^ 32 = Spec.polyHash name `mod` 2 ^ 32.
Proof.
  assert (Hm : 0 ≤ nameHash name `mod` 0xFFFFFF < 0xFFFFFF) by (apply Z.mod_pos_bound; lia).
  destruct (toString16_spec (nameHash name `mod` 0xFFFFFF)) as (Hne & Hall & Hval); [lia |].
  split.
  { intros fileContent u b Hin Hname.
    destruct (loadBlocks_colors fileContent u b Hin) as (nm & Hnm & Hcolor).
    congruence. }
  unfold blockColorOf. rewrite mod__floor by lia.
  repeat split; try lia.
  - cbn [lit list_ascii_of_string fmap list_fmap length app].
    f_equal. unfold padStart0. rewrite length_app, length_replicate.
    assert (length (toString16 (nameHash name `mod` 0xFFFFFF)) ≤ 6)%nat; [| lia].
    unfold toString16. destruct (Z.ltb_spec (nameHash name `mod` 0xFFFFFF) 0); [lia |].
    pose proof (hexDigits_length (S (Z.to_nat (Z.log2 (nameHash name `mod` 0xFFFFFF))))
                  (nameHash name `mod` 0xFFFFFF) [] 6) as Hlen.
    cbn [length] in Hlen. change (16 ^ Z.of_nat 6) with 16777216 in Hlen. lia.
  - change (drop 1 (lit "#" ++ ?x)) with x.
    rewrite parseInt16_hex.
    + unfold padStart0. by rewrite digitsValue_zeros, Hval.
    + unfold padStart0. intros Hnil. apply app_eq_nil in Hnil as [_ Hnil]. done.
    + by apply padStart0_hex.
  - destruct (nameHash_cong name) as [k ->].
    rewrite Z.mul_comm. apply Z_mod_plus_full.
Qed.

(** C8, counterexample.  On the name of the first block of [Blocks.txt] the
    colour of the code is not the colour the polynomial hash gives. *)
Lemma C8_block_color_counterexample :
  blockColorOf (lit " Basic Latin") = lit "#18b301"
  ∧ Spec.blockColor (lit " Basic Latin") = lit "#5cbd13"
  ∧ blockColorOf (lit " Basic Latin") ≠ Spec.blockColor (lit " Basic Latin").
Proof. repeat split; [vm_compute; reflexivity .. | vm_compute; discriminate]. Qed.

(** ** The weighted draw *)

(** *** Doubles

    The operations of [float] are specified by those of [SpecFloat] on the
    sign, mantissa and exponent of a double. *)

Lemma digits2_pos_bounds (m : positive) :
  2 ^ (Z.pos (digits2_pos m) - 1) ≤ Z.pos m < 2 ^ Z.pos (digits2_pos m).
Proof.
  induction m as [m IH | m IH |]; cbn [digits2_pos]; [| | cbn; lia].
  - rewrite Pos2Z.inj_succ, Z.pow_succ_r by lia.
    replace (Z.succ (Z.pos (digits2_pos m)) - 1) with (Z.succ (Z.pos (digits2_pos m) - 1)) by lia.
    rewrite Z.pow_succ_r by lia. lia.
  - rewrite Pos2Z.inj_succ, Z.pow_succ_r by lia.
    replace (Z.succ (Z.pos (digits2_pos m)) - 1) with (Z.succ (Z.pos (digits2_pos m) - 1)) by lia.
    rewrite Z.pow_succ_r by lia. lia.
Qed.

(** The mantissa and exponent of a finite double: at most 53 digits, and
    exactly 53 above the least exponent. *)
Lemma bounded_digits (m : positive) (e : Z) :
  bounded prec emax m e = true →
  Z.pos (digits2_pos m) ≤ 53 ∧ -1074 ≤ e
  ∧ (e = -1074 ∨ Z.pos (digits2_pos m) = 53).
Proof.
  unfold bounded, canonical_mantissa, fexp, emin, prec, emax.
  intros [H _]%andb_prop. apply Z.eqb_eq in H. lia.
Qed.

Lemma iter_xO (d m : positive) : Z.pos (Pos.iter xO m d) = Z.pos m * 2 ^ Z.pos d.
Proof.
  change (Pos.iter xO m d) with (shift_pos d m).
  rewrite shift_pos_correct, Zpower_pos_nat, Zpower_nat_Z, positive_nat_Z. lia.
Qed.

(** What rounding returns has the sign it was given. *)
Lemma binary_round_aux_sign (sx : bool) (mx ex : Z) (lx : location) :
  binary_round_aux prec emax sx mx ex lx = S754_nan
  ∨ binary_round_aux prec emax sx mx ex lx = S754_zero sx
  ∨ binary_round_aux prec emax sx mx ex lx = S754_infinity sx
  ∨ ∃ m e, binary_round_aux prec emax sx mx ex lx = S754_finite sx m e.
Proof.
  unfold binary_round_aux.
  destruct (shr_fexp prec emax mx ex lx) as [mrs' e'].
  destruct (shr_fexp prec emax _ e' loc_Exact) as [mrs'' e''].
  destruct (shr_m mrs'') as [| m | m]; [tauto | | tauto].
  destruct (e'' <=? emax - prec); [right; right; right; by eexists _, _ | tauto].
Qed.

Lemma binary_round_not_negative (m : positive) (e : Z) :
  SFltb (binary_round prec emax false m e) (S754_zero false) = false.
Proof.
  unfold binary_round.
  destruct (shl_align m e _) as [mz ez].
  destruct (binary_round_aux_sign false (Z.pos mz) ez loc_Exact)
    as [-> | [-> | [-> | (m' & e' & ->)]]]; reflexivity.
Qed.

(** Not negative stays not negative when a weight that is not above it is
    subtracted: the rounded difference of two doubles has the sign of the
    exact one. *)
Lemma SFsub_not_negative (x y : spec_float) :
  valid_binary x = true → valid_binary y = true →
  SFltb x (S754_zero false) = false →
  SFltb x y = false →
  SFleb (S754_zero false) y = true →
  SFltb (SF64sub x y) (S754_zero false) = false.
Proof.
  intros Vx Vy Hx Hxy Hy.
  destruct x as [sx | sx | | sx mx ex], y as [sy | sy | | sy my ey];
    try destruct sx; try destruct sy; try discriminate; try reflexivity.
  cbn [valid_binary] in Vx, Vy.
  destruct (bounded_digits _ _ Vx) as (Dx & Ex & Nx).
  destruct (bounded_digits _ _ Vy) as (Dy & Ey & Ny).
  pose proof (digits2_pos_bounds mx) as [Lx _].
  pose proof (digits2_pos_bounds my) as [_ Uy].
  unfold SFltb, SFcompare in Hxy.
  unfold SF64sub, SFsub, shl_align, cond_Zopp.
  assert (Hge : ∃ a b : positive,
            fst (match Z.min ex ey - ex with
                 | Z.neg d => (Pos.iter xO mx d, Z.min ex ey)
                 | _ => (mx, ex)
                 end) = a
            ∧ fst (match Z.min ex ey - ey with
                   | Z.neg d => (Pos.iter xO my d, Z.min ex ey)
                   | _ => (my, ey)
                   end) = b
            ∧ Z.pos b ≤ Z.pos a).
  { destruct (Z.compare_spec ex ey) as [-> | Hlt | Hgt]; [| discriminate |].
    - rewrite Z.min_id, Z.sub_diag. exists mx, my. split; [done |]. split; [done |].
      rewrite Pos.compare_cont_spec in Hxy. cbn in Hxy.
      destruct (Pos.compare_spec mx my) as [-> | Hlt | Hgt]; [lia | discriminate | lia].
    - rewrite Z.min_r by lia. rewrite Z.sub_diag.
      destruct (ey - ex) as [| d | d] eqn:Ed; [lia | lia |].
      exists (Pos.iter xO mx d), my. split; [done |]. split; [done |].
      rewrite iter_xO.
      assert (Hdx : Z.pos (digits2_pos mx) = 53) by lia.
      rewrite Hdx in Lx.
      assert (Hmy : Z.pos my < 2 ^ 53).
      { eapply Z.lt_le_trans; [exact Uy |]. apply Z.pow_le_mono_r; lia. }
      assert (Hd : 2 ^ 1 ≤ 2 ^ Z.pos d) by (apply Z.pow_le_mono_r; lia).
      change (2 ^ (53 - 1)) with 4503599627370496 in Lx.
      change (2 ^ 53) with 9007199254740992 in Hmy.
      change (2 ^ 1) with 2 in Hd. nia. }
  destruct Hge as (a & b & -> & -> & Hab).
  destruct (Z.pos a - Z.pos b) as [| m | m] eqn:Em; [reflexivity | | lia].
  cbn [binary_normalize]. apply binary_round_not_negative.
Qed.

Lemma sub_not_negative (r w : float) :
  (r <? 0)%float = false → (r <? w)%float = false → (0 <=? w)%float = true →
  (r - w <? 0)%float = false.
Proof.
  rewrite !FloatAxioms.ltb_spec, FloatAxioms.leb_spec, FloatAxioms.sub_spec.
  change (Prim2SF 0) with (S754_zero false).
  apply SFsub_not_negative; apply Prim2SF_valid.
Qed.

Lemma ltb_positive (r w : float) :
  (r <? 0)%float = false → (r <? w)%float = true → (0 <? w)%float = true.
Proof.
  rewrite !FloatAxioms.ltb_spec. change (Prim2SF 0) with (S754_zero false).
  destruct (Prim2SF r) as [sx | sx | | sx mx ex], (Prim2SF w) as [sy | sy | | sy my ey];
    try destruct sx; try destruct sy; try discriminate; reflexivity.
Qed.

Lemma leb_not_negative (r : float) :
  (0 <=? r)%float = true → (r <? 0)%float = false.
Proof.
  rewrite FloatAxioms.ltb_spec, FloatAxioms.leb_spec. change (Prim2SF 0) with (S754_zero false).
  destruct (Prim2SF r) as [sx | sx | | sx mx ex];
    try destruct sx; try discriminate; reflexivity.
Qed.

Lemma ltb_not_zero (w : float) :
  (0 <? w)%float = true → (w =? 0)%float = false.
Proof.
  rewrite FloatAxioms.ltb_spec, FloatAxioms.eqb_spec. change (Prim2SF 0) with (S754_zero false).
  destruct (Prim2SF w) as [sx | sx | | sx mx ex];
    try destruct sx; try discriminate; reflexivity.
Qed.

(** The outer loop of [draw] appends, in order, what each iteration selects. *)
Lemma draw_loop (g : nat → option PoolItem) (l : list nat) : ∀ acc,
  foldl (λ results i, match g i with
                      | Some item => results ++ [item]
                      | None => results
                      end) acc l = acc ++ omap g l.
Proof.
  induction l as [| i l IH]; intros acc; cbn [foldl omap list_omap].
  - by rewrite app_nil_r.
  - rewrite IH. destruct (g i); [| done]. by rewrite <- app_assoc.
Qed.

(** C3, at the failing input.  The pool holds three items of weights 0.1,
    0.2 and 0.3, and [Math.random()] returns 0.9999999999999998.  The sum of
    the weights is computed as 0.6000000000000001 and the random value as
    0.6, inside [0, totalWeight).  The scan subtracts 0.1 and gets 0.5,
    subtracts 0.2 and gets the double 0.3, which is not below the weight
    0.3: no item is selected, and [draw(1)] returns no item instead of
    one. *)
Lemma C3_weighted_draw_failing_input :
  items Spec.pool_tenths ≠ []
  ∧ totalWeight (items Spec.pool_tenths) = 0x1.3333333333334p-1%float
  ∧ (Spec.almostOne * totalWeight (items Spec.pool_tenths))%float = 0x1.3333333333333p-1%float
  ∧ (0 <=? Spec.almostOne * totalWeight (items Spec.pool_tenths))%float = true
  ∧ (Spec.almostOne * totalWeight (items Spec.pool_tenths)
     <? totalWeight (items Spec.pool_tenths))%float = true
  ∧ (0x1.3333333333333p-1 - 0x1.999999999999ap-4)%float = 0.5%float
  ∧ (0.5 - 0x1.999999999999ap-3)%float = 0x1.3333333333333p-2%float
  ∧ (0x1.3333333333333p-2 <? 0x1.3333333333333p-2)%float = false
  ∧ scan (Spec.almostOne * totalWeight (items Spec.pool_tenths))%float
         (items Spec.pool_tenths) = None
  ∧ draw Spec.pool_tenths 1 (λ _, Spec.almostOne) = []
  ∧ length (draw Spec.pool_tenths 1 (λ _, Spec.almostOne)) ≠ Z.to_nat 1.
Proof.
  split; [discriminate |].
  do 9 (split; [vm_compute; reflexivity |]).
  vm_compute. discriminate.
Qed.

(** C5.  [draw] returns the empty list when the amount is zero or negative,
    whatever the pool, and when the pool has no item, whatever the amount;
    being a total function to lists, it raises nothing. *)
Theorem C5_empty_draw (p : Pool) (amount : Z) (random : nat → float) :
  ((amount ≤ 0)%Z → draw p amount random = [])
  ∧ (items p = [] → draw p amount random = []).
Proof.
  unfold draw. split.
  - intros Hamount. destruct (Z.leb_spec amount 0); [| lia].
    by rewrite orb_true_r.
  - intros ->. done.
Qed.

Lemma scan_positive (l : list PoolItem) : ∀ (r : float) (item : PoolItem),
  Forall (λ item, (0 <=? weight item)%float = true) l → (r <? 0)%float = false →
  scan r l = Some item → (0 <? weight item)%float = true.
Proof.
  induction l as [| x l IH]; intros r item Hnn Hr; cbn [scan]; [done |].
  apply Forall_cons in Hnn as [Hx Hnn]. cbn beta in Hx.
  destruct (r <? weight x)%float eqn:Hlt.
  - intros [= <-]. by eapply ltb_positive.
  - apply IH; [done |]. by apply sub_not_negative.
Qed.

(** C10.  When all weights are non-negative and the random values are
    non-negative (as every value of [0, totalWeight) is), no item [draw]
    returns has weight zero: each has a positive weight. *)
Theorem C10_zero_weight_never_drawn (p : Pool) (amount : Z) (random : nat → float) :
  Forall (λ item, (0 <=? weight item)%float = true) (items p) →
  (∀ i, (i < Z.to_nat amount)%nat →
        (0 <=? random i * totalWeight (items p))%float = true) →
  ∀ item, item ∈ draw p amount random →
          (0 <? weight item)%float = true ∧ (weight item =? 0)%float = false.
Proof.
  intros Hnn Hrandom item Hin.
  assert (Hpos : (0 <? weight item)%float = true);
    [| split; [exact Hpos | by apply ltb_not_zero]].
  unfold draw in Hin.
  destruct ((length (items p) =? 0)%nat || (amount <=? 0)%Z);
    [by apply elem_of_nil in Hin |].
  rewrite draw_loop in Hin. cbn [app] in Hin.
  apply list_elem_of_omap in Hin as (i & Hi & Hscan).
  apply elem_of_seq in Hi.
  eapply scan_positive; [exact Hnn | | exact Hscan].
  apply leb_not_negative, Hrandom. lia.
Qed.

Lemma C10_zero_weight_never_drawn_witness :
  draw Spec.pool_0_2 2 (λ _, 0%float)
  = [ {| item_id := 8; weight := 2 |}; {| item_id := 8; weight := 2 |} ]
  ∧ ∀ item, item ∈ draw Spec.pool_0_2 2 (λ _, 0%float) →
            (0 <? weight item)%float = true ∧ (weight item =? 0)%float = false.
Proof.
  split; [vm_compute; reflexivity |].
  apply (C10_zero_weight_never_drawn Spec.pool_0_2 2 (λ _, 0%float)).
  - repeat constructor.
  - intros i _. vm_compute. reflexivity.
Defined.

(** ** The code-point loader *)

(** What one iteration of the loader does when it does not raise: nothing,
    or one of the three writes. *)
Lemma addUnicodeDataBody_cases (rangeStart rangeEnd rangeFirst : Z)
    (d : gmap Z CodePointData) (line : list Z) (st' : Z * gmap Z CodePointData) :
  addUnicodeDataBody rangeStart rangeEnd (rangeFirst, d) line = Ok st' →
  st' = (rangeFirst, d)
  ∨ ∃ cid nm, id (parseCodePoint line) = Some cid
              ∧ rangeStart ≤ cid ≤ rangeEnd
              ∧ name (parseCodePoint line) = Some nm
              ∧ ((endsWith nm (lit "First>") = true ∧ st' = (cid, d))
                 ∨ (endsWith nm (lit "Last>") = true
                    ∧ includes (slice nm 1 (-7)) (lit "CJK")
                      || includes (slice nm 1 (-7)) (lit "Hangul") = true
                    ∧ st' = (rangeFirst,
                             addRange rangeFirst cid (slice nm 1 (-7)) (parseCodePoint line) d))
                 ∨ (endsWith nm (lit ">") = false
                    ∧ st' = (rangeFirst, <[cid := parseCodePoint line]> d))).
Proof.
  unfold addUnicodeDataBody.
  destruct (startsWith line (lit "#")); [intros [= <-]; by left |].
  destruct (id (parseCodePoint line)) as [cid |] eqn:Eid; cbn [ltNum gtNum];
    [| intros [= <-]; by left].
  destruct (Z.ltb_spec cid rangeStart); [intros [= <-]; by left |].
  destruct (Z.ltb_spec rangeEnd cid); [intros [= <-]; by left |]. cbn [orb].
  destruct (name (parseCodePoint line)) as [nm |] eqn:Enm; [| done].
  destruct (endsWith nm (lit ">")) eqn:Egt.
  - destruct (endsWith nm (lit "First>")) eqn:Efirst.
    + intros [= <-]. right. exists cid, nm. repeat split; try done; try lia. by left.
    + destruct (endsWith nm (lit "Last>")) eqn:Elast; [| intros [= <-]; by left].
      destruct (includes (slice nm 1 (-7)) (lit "CJK")
                || includes (slice nm 1 (-7)) (lit "Hangul")) eqn:Etag;
        [| intros [= <-]; by left].
      intros [= <-]. right. exists cid, nm. repeat split; try done; try lia.
      right. left. done.
  - intros [= <-]. right. exists cid, nm. repeat split; try done; try lia.
    right. right. done.
Qed.

Lemma foldl_insert_lookup (f : Z → CodePointData) (l : list Z) :
  ∀ (d : gmap Z CodePointData) (k : Z),
  foldl (λ d id, <[id := f id]> d) d l !! k
  = if decide (k ∈ l) then Some (f k) else d !! k.
Proof.
  induction l as [| i l IH]; intros d k; cbn [foldl].
  - case_decide as H; [by apply elem_of_nil in H | done].
  - rewrite IH. destruct (decide (k ∈ l)) as [Hin | Hnin].
    + rewrite decide_True by (by right). done.
    + destruct (decide (k = i)) as [-> | Hne].
      * rewrite decide_True by left. apply lookup_insert_eq.
      * rewrite decide_False by (intros [? | ?]%elem_of_cons; done).
        by apply lookup_insert_ne.
Qed.

(** [addRange] writes one synthesized record at every id from [rangeFirst]
    to [rangeLast] and leaves the other ids as they were. *)
Lemma addRange_lookup (rangeFirst rangeLast : Z) (rangeName : list Z)
    (c : CodePointData) (d : gmap Z CodePointData) (k : Z) :
  addRange rangeFirst rangeLast rangeName c d !! k
  = if decide (rangeFirst ≤ k ≤ rangeLast)
    then Some (withIdName c k (rangeItemName rangeName k))
    else d !! k.
Proof.
  unfold addRange.
  rewrite (foldl_insert_lookup (λ id, withIdName c id (rangeItemName rangeName id))).
  destruct (decide (k ∈ seqZ rangeFirst (rangeLast - rangeFirst + 1))) as [Hin | Hnin].
  - apply elem_of_seqZ in Hin. rewrite decide_True by lia. done.
  - rewrite elem_of_seqZ in Hnin. rewrite decide_False by lia. done.
Qed.

Lemma endsWith_Last_not_First (nm : list Z) :
  endsWith nm (lit "Last>") = true → endsWith nm (lit "First>") = false.
Proof.
  unfold endsWith.
  change (reverse (lit "Last>")) with [62; 116; 115; 97; 76].
  change (reverse (lit "First>")) with [62; 116; 115; 114; 105; 70].
  destruct (reverse nm) as [| a [| b [| c [| e r]]]]; cbn [startsWith]; try done.
  - by rewrite !andb_false_r.
  - by rewrite !andb_false_r.
  - by rewrite !andb_false_r.
  - destruct (Z.eqb_spec 62 a), (Z.eqb_spec 116 b), (Z.eqb_spec 115 c), (Z.eqb_spec 97 e);
      cbn [andb]; try done.
    subst e. done.
Qed.

Lemma endsWith_Last_gt (nm : list Z) :
  endsWith nm (lit "Last>") = true → endsWith nm (lit ">") = true.
Proof.
  unfold endsWith.
  change (reverse (lit "Last>")) with [62; 116; 115; 97; 76].
  change (reverse (lit ">")) with [62].
  destruct (reverse nm) as [| a r]; cbn [startsWith]; [done |].
  destruct (Z.eqb_spec 62 a); done.
Qed.

Lemma endsWith_First_gt (nm : list Z) :
  endsWith nm (lit "First>") = true → endsWith nm (lit ">") = true.
Proof.
  unfold endsWith.
  change (reverse (lit "First>")) with [62; 116; 115; 114; 105; 70].
  change (reverse (lit ">")) with [62].
  destruct (reverse nm) as [| a r]; cbn [startsWith]; [done |].
  destruct (Z.eqb_spec 62 a); done.
Qed.

(** The two writes of the loop body that concern ranges. *)
Lemma addUnicodeDataBody_First (rangeStart rangeEnd rangeFirst : Z)
    (d : gmap Z CodePointData) (line : list Z) (cid : Z) (nm : list Z) :
  startsWith line (lit "#") = false →
  id (parseCodePoint line) = Some cid →
  rangeStart ≤ cid ≤ rangeEnd →
  name (parseCodePoint line) = Some nm →
  endsWith nm (lit "First>") = true →
  addUnicodeDataBody rangeStart rangeEnd (rangeFirst, d) line = Ok (cid, d).
Proof.
  intros Hcomment Hid Hbound Hname Hfirst. unfold addUnicodeDataBody.
  rewrite Hcomment, Hid, Hname. cbn [ltNum gtNum].
  destruct (Z.ltb_spec cid rangeStart); [lia |].
  destruct (Z.ltb_spec rangeEnd cid); [lia |]. cbn [orb].
  rewrite (endsWith_First_gt nm Hfirst), Hfirst. reflexivity.
Qed.

Lemma addUnicodeDataBody_Last (rangeStart rangeEnd rangeFirst : Z)
    (d : gmap Z CodePointData) (line : list Z) (cid : Z) (nm : list Z) :
  startsWith line (lit "#") = false →
  id (parseCodePoint line) = Some cid →
  rangeStart ≤ cid ≤ rangeEnd →
  name (parseCodePoint line) = Some nm →
  endsWith nm (lit "Last>") = true →
  includes (slice nm 1 (-7)) (lit "CJK") || includes (slice nm 1 (-7)) (lit "Hangul") = true →
  addUnicodeDataBody rangeStart rangeEnd (rangeFirst, d) line
  = Ok (rangeFirst, addRange rangeFirst cid (slice nm 1 (-7)) (parseCodePoint line) d).
Proof.
  intros Hcomment Hid Hbound Hname Hlast Htag. unfold addUnicodeDataBody.
  rewrite Hcomment, Hid, Hname. cbn [ltNum gtNum].
  destruct (Z.ltb_spec cid rangeStart); [lia |].
  destruct (Z.ltb_spec rangeEnd cid); [lia |]. cbn [orb].
  rewrite (endsWith_Last_gt nm Hlast), (endsWith_Last_not_First nm Hlast), Hlast, Htag.
  reflexivity.
Qed.

(** A line whose id does not parse, the empty last line of a file among
    them, is passed over. *)
Lemma addUnicodeDataBody_NaN (rangeStart rangeEnd : Z) (st : Z * gmap Z CodePointData)
    (line : list Z) :
  id (parseCodePoint line) = None →
  addUnicodeDataBody rangeStart rangeEnd st line = Ok st.
Proof.
  intros Hid. unfold addUnicodeDataBody. destruct st as [rangeFirst d].
  destruct (startsWith line (lit "#")); [reflexivity |].
  rewrite Hid. reflexivity.
Qed.

(** A line whose id is outside the scan bound is passed over. *)
Lemma addUnicodeDataBody_out (rangeStart rangeEnd : Z) (st : Z * gmap Z CodePointData)
    (line : list Z) (cid : Z) :
  id (parseCodePoint line) = Some cid →
  cid < rangeStart ∨ rangeEnd < cid →
  addUnicodeDataBody rangeStart rangeEnd st line = Ok st.
Proof.
  intros Hid Hout. unfold addUnicodeDataBody. destruct st as [rangeFirst d].
  destruct (startsWith line (lit "#")); [reflexivity |].
  rewrite Hid. cbn [ltNum gtNum].
  destruct (Z.ltb_spec cid rangeStart); [reflexivity |].
  destruct (Z.ltb_spec rangeEnd cid); [reflexivity | lia].
Qed.

(** The lines of the two-line file. *)
Lemma cjkRangeFile_lines :
  split Spec.cjkRangeFile [10]
  = [ lit "4E00;<CJK Ideograph, First>;Lo;0;L;;;;;N;;;;;";
      lit "4E02;<CJK Ideograph, Last>;Lo;0;L;;;;;N;;;;;"; [] ].
Proof. vm_compute. reflexivity. Qed.

(** C1.  A line inside the scan bound whose name ends with [First>] makes
    its id the pending range start and stores nothing; one whose name ends
    with [Last>] and whose tag (the name without its first character and its
    last seven) contains [CJK] or [Hangul] stores, for every id from the
    pending start to its own id, the record with that id and the synthesized
    name, and nothing else changes.  On the two lines for 0x4E00 and 0x4E02
    the index ends up with exactly the ids 0x4E00, 0x4E01 and 0x4E02, named
    CJK IDEOGRAPH 4E00, 4E01 and 4E02. *)
Theorem C1_range_expansion (rangeStart rangeEnd rangeFirst : Z)
    (d : gmap Z CodePointData) (line : list Z) (cid : Z) (nm : list Z) :
  startsWith line (lit "#") = false →
  id (parseCodePoint line) = Some cid →
  rangeStart ≤ cid ≤ rangeEnd →
  name (parseCodePoint line) = Some nm →
  (endsWith nm (lit "First>") = true →
   addUnicodeDataBody rangeStart rangeEnd (rangeFirst, d) line = Ok (cid, d))
  ∧ (endsWith nm (lit "Last>") = true →
     includes (slice nm 1 (-7)) (lit "CJK") || includes (slice nm 1 (-7)) (lit "Hangul") = true →
     ∃ d', addUnicodeDataBody rangeStart rangeEnd (rangeFirst, d) line = Ok (rangeFirst, d')
           ∧ ∀ k, d' !! k
                  = if decide (rangeFirst ≤ k ≤ cid)
                    then Some (withIdName (parseCodePoint line) k
                                 (rangeItemName (slice nm 1 (-7)) k))
                    else d !! k)
  ∧ (let u := (addUnicodeData 0 65535 Spec.cjkRangeFile newUnicodeData).1 in
     (addUnicodeData 0 65535 Spec.cjkRangeFile newUnicodeData).2 = Completed
     ∧ (∀ k, is_Some (getCodePoint u k) ↔ k = 0x4E00 ∨ k = 0x4E01 ∨ k = 0x4E02)
     ∧ getCodePoint u 0x4E00 = Some (Spec.cjkIdeograph 0x4E00 "CJK IDEOGRAPH 4E00")
     ∧ getCodePoint u 0x4E01 = Some (Spec.cjkIdeograph 0x4E01 "CJK IDEOGRAPH 4E01")
     ∧ getCodePoint u 0x4E02 = Some (Spec.cjkIdeograph 0x4E02 "CJK IDEOGRAPH 4E02")
     ∧ (getCodePoint u 0x4E00 ≫= name) = Some (lit "CJK IDEOGRAPH 4E00")
     ∧ (getCodePoint u 0x4E01 ≫= name) = Some (lit "CJK IDEOGRAPH 4E01")
     ∧ (getCodePoint u 0x4E02 ≫= name) = Some (lit "CJK IDEOGRAPH 4E02")
     ∧ rangeItemName (lit "CJK Ideograph") 0x4E00 = lit "CJK IDEOGRAPH 4E00").
Proof.
  intros Hcomment Hid Hbound Hname.
  split; [| split].
  - intros Hfirst. by apply (addUnicodeDataBody_First _ _ _ _ _ cid nm).
  - intros Hlast Htag. eexists. split.
    + by apply (addUnicodeDataBody_Last _ _ _ _ _ cid nm).
    + intros k. apply addRange_lookup.
  - assert (Hload : addUnicodeData 0 65535 Spec.cjkRangeFile newUnicodeData
                    = ({| data := <[0x4E02 := Spec.cjkIdeograph 0x4E02 "CJK IDEOGRAPH 4E02"]>
                                    (<[0x4E01 := Spec.cjkIdeograph 0x4E01 "CJK IDEOGRAPH 4E01"]>
                                       (<[0x4E00 := Spec.cjkIdeograph 0x4E00 "CJK IDEOGRAPH 4E00"]> ∅));
                          blocks := []; cjkData := ∅ |}, Completed))
      by (vm_compute; reflexivity).
    rewrite Hload. cbn [fst snd]. unfold getCodePoint. cbn [data].
    split; [done |]. split; [| repeat split; try (vm_compute; reflexivity)].
    intros k. rewrite !lookup_insert, lookup_empty.
    repeat case_decide; split; intros Hk; try lia; try done; try (by eexists).
Qed.

Lemma C1_range_expansion_witness :
  addUnicodeDataBody 0 65535 (0, ∅) (lit "4E00;<CJK Ideograph, First>;Lo;0;L;;;;;N;;;;;")
  = Ok (0x4E00, ∅).
Proof.
  refine (proj1 (C1_range_expansion 0 65535 0 ∅
                   (lit "4E00;<CJK Ideograph, First>;Lo;0;L;;;;;N;;;;;")
                   0x4E00 (lit "<CJK Ideograph, First>") _ _ _ _) _);
    [reflexivity | reflexivity | lia | reflexivity | reflexivity].
Defined.

(** C6, at the failing input.  With the scan bound [0x4E01, 0xFFFF] the
    [First>] line at 0x4E00 is skipped as out of bound, the pending range start
    keeps its initial 0, and the [Last>] line at 0x4E02 expands the range from
    0: ids below the bound are stored. *)
Lemma C6_scan_bound_failing_input :
  loadCodePoints 0x4E01 0xFFFF Spec.cjkRangeFile ∅
  = (addRange 0 0x4E02 (lit "CJK Ideograph")
       (parseCodePoint (lit "4E02;<CJK Ideograph, Last>;Lo;0;L;;;;;N;;;;;")) ∅,
     Completed)
  ∧ (loadCodePoints 0x4E01 0xFFFF Spec.cjkRangeFile ∅).1 !! 0
    = Some (Spec.cjkIdeograph 0 "CJK IDEOGRAPH 0")
  ∧ (loadCodePoints 0x4E01 0xFFFF Spec.cjkRangeFile ∅).1 !! 0x4E00
    = Some (Spec.cjkIdeograph 0x4E00 "CJK IDEOGRAPH 4E00")
  ∧ ¬ (0x4E01 ≤ 0 ≤ 0xFFFF)
  ∧ ¬ (0x4E01 ≤ 0x4E00 ≤ 0xFFFF).
Proof.
  assert (Hload : loadCodePoints 0x4E01 0xFFFF Spec.cjkRangeFile ∅
                  = (addRange 0 0x4E02 (lit "CJK Ideograph")
                       (parseCodePoint (lit "4E02;<CJK Ideograph, Last>;Lo;0;L;;;;;N;;;;;")) ∅,
                     Completed)).
  { unfold loadCodePoints. rewrite cjkRangeFile_lines. cbn [forOf].
    rewrite (addUnicodeDataBody_out _ _ _ _ 0x4E00) by (reflexivity || lia).
    rewrite (addUnicodeDataBody_Last _ _ _ _ _ 0x4E02 (lit "<CJK Ideograph, Last>"))
      by (reflexivity || lia).
    rewrite addUnicodeDataBody_NaN by reflexivity.
    reflexivity. }
  rewrite Hload. cbn [fst].
  split; [reflexivity |].
  split; [rewrite addRange_lookup, decide_True by lia; reflexivity |].
  split; [rewrite addRange_lookup, decide_True by lia; reflexivity |].
  split; lia.
Qed.

(** X1.  What does hold of the scan bound: no stored id is above [rangeEnd] or
    below the smaller of [rangeStart] and 0, the initial pending range
    start; so the bound is kept whenever [rangeStart] is not positive, as
    in the one call the program makes, [addUnicodeData(0, 65535)]. *)
Lemma loadCodePoints_bound (rangeStart rangeEnd : Z) (fileContent : list Z) (k : Z) :
  is_Some ((loadCodePoints rangeStart rangeEnd fileContent ∅).1 !! k) →
  Z.min 0 rangeStart ≤ k ≤ rangeEnd.
Proof.
  unfold loadCodePoints.
  pose proof (forOf_invariant
    (λ st : Z * gmap Z CodePointData,
       Z.min 0 rangeStart ≤ st.1
       ∧ ∀ k, is_Some (st.2 !! k) → Z.min 0 rangeStart ≤ k ≤ rangeEnd)
    (addUnicodeDataBody rangeStart rangeEnd) (split fileContent [10]) (0, ∅)) as Hinv.
  destruct (forOf (addUnicodeDataBody rangeStart rangeEnd) (0, ∅) (split fileContent [10]))
    as [[rf d'] o].
  cbn [fst snd] in *. intros Hk. apply Hinv; [| | done].
  - split; [lia |]. intros k'. rewrite lookup_empty. by intros [? ?].
  - clear. intros [rf d] line st' _ [Hrf Hd] Hbody. cbn [fst snd] in *.
    apply addUnicodeDataBody_cases in Hbody
      as [-> | (cid & nm & Hid & Hcid & Hnm & [[_ ->] | [(_ & _ & ->) | [_ ->]]])];
      cbn [fst snd]; (split; [lia |]); try done.
    + intros k. rewrite addRange_lookup. case_decide; [lia | apply Hd].
    + intros k. rewrite lookup_insert. case_decide; [lia | apply Hd].
Qed.

Lemma loadCodePoints_bound_witness :
  is_Some ((loadCodePoints 0 65535 Spec.cjkRangeFile ∅).1 !! 0x4E01)
  ∧ Z.min 0 0 ≤ 0x4E01 ≤ 65535.
Proof.
  assert (H : is_Some ((loadCodePoints 0 65535 Spec.cjkRangeFile ∅).1 !! 0x4E01)).
  { vm_compute. eexists. reflexivity. }
  split; [exact H |].
  exact (loadCodePoints_bound 0 65535 Spec.cjkRangeFile 0x4E01 H).
Defined.

(** X2.  Where a stored record comes from: it is the parse of a line whose name
    does not end with [>], or it is synthesized by [addRange] from a [Last>]
    line whose tag contains [CJK] or [Hangul].  No other bracketed name
    reaches the index. *)
Lemma loadCodePoints_origin (rangeStart rangeEnd : Z) (fileContent : list Z)
    (k : Z) (c : CodePointData) :
  (loadCodePoints rangeStart rangeEnd fileContent ∅).1 !! k = Some c →
  ∃ line nm,
    line ∈ split fileContent [10]
    ∧ name (parseCodePoint line) = Some nm
    ∧ ((endsWith nm (lit ">") = false ∧ id (parseCodePoint line) = Some k
        ∧ c = parseCodePoint line)
       ∨ (endsWith nm (lit "Last>") = true
          ∧ includes (slice nm 1 (-7)) (lit "CJK")
            || includes (slice nm 1 (-7)) (lit "Hangul") = true
          ∧ c = withIdName (parseCodePoint line) k (rangeItemName (slice nm 1 (-7)) k))).
Proof.
  unfold loadCodePoints.
  pose proof (forOf_invariant
    (λ st : Z * gmap Z CodePointData,
       ∀ k c, st.2 !! k = Some c →
         ∃ line nm,
           line ∈ split fileContent [10]
           ∧ name (parseCodePoint line) = Some nm
           ∧ ((endsWith nm (lit ">") = false ∧ id (parseCodePoint line) = Some k
               ∧ c = parseCodePoint line)
              ∨ (endsWith nm (lit "Last>") = true
                 ∧ includes (slice nm 1 (-7)) (lit "CJK")
                   || includes (slice nm 1 (-7)) (lit "Hangul") = true
                 ∧ c = withIdName (parseCodePoint line) k
                         (rangeItemName (slice nm 1 (-7)) k))))
    (addUnicodeDataBody rangeStart rangeEnd) (split fileContent [10]) (0, ∅)) as Hinv.
  destruct (forOf (addUnicodeDataBody rangeStart rangeEnd) (0, ∅) (split fileContent [10]))
    as [[rf d'] o].
  cbn [fst snd] in *. intros Hk. apply Hinv; [| | done].
  - intros k' c'. by rewrite lookup_empty.
  - clear. intros [rf d] line st' Hline Hd Hbody. cbn [fst snd] in *.
    apply addUnicodeDataBody_cases in Hbody
      as [-> | (cid & nm & Hid & Hcid & Hnm & [[_ ->] | [(Hlast & Htag & ->) | [Hgt ->]]])];
      cbn [fst snd]; try done.
    + intros k c. rewrite addRange_lookup. case_decide; [| apply Hd].
      intros [= <-]. exists line, nm. repeat split; try done. by right.
    + intros k c. rewrite lookup_insert. case_decide; [| apply Hd].
      intros [= <-]. subst k. exists line, nm. repeat split; try done. by left.
Qed.

Lemma loadCodePoints_origin_witness :
  ∃ line nm,
    line ∈ split Spec.cjkRangeFile [10]
    ∧ name (parseCodePoint line) = Some nm
    ∧ ((endsWith nm (lit ">") = false ∧ id (parseCodePoint line) = Some 0x4E01
        ∧ Spec.cjkIdeograph 0x4E01 "CJK IDEOGRAPH 4E01" = parseCodePoint line)
       ∨ (endsWith nm (lit "Last>") = true
          ∧ includes (slice nm 1 (-7)) (lit "CJK")
            || includes (slice nm 1 (-7)) (lit "Hangul") = true
          ∧ Spec.cjkIdeograph 0x4E01 "CJK IDEOGRAPH 4E01"
            = withIdName (parseCodePoint line) 0x4E01 (rangeItemName (slice nm 1 (-7)) 0x4E01))).
Proof.
  apply (loadCodePoints_origin 0 65535 Spec.cjkRangeFile 0x4E01).
  vm_compute. reflexivity.
Defined.

(** ** Seeding the BMP pool *)

Lemma initialize_loop (l : list Z) : ∀ p : Pool,
  unicodeData (foldl initializeBody p l) = unicodeData p
  ∧ unicodeDataInitialized (foldl initializeBody p l) = unicodeDataInitialized p
  ∧ items (foldl initializeBody p l)
    = items p ++ ((λ id, {| item_id := id; weight := 1%float |})
                    <$> filter (λ id, is_Some (getCodePoint (unicodeData p) id)) l).
Proof.
  induction l as [| i l IH]; intros p; cbn [foldl].
  - rewrite filter_nil, fmap_nil, app_nil_r. done.
  - destruct (IH (initializeBody p i)) as (Hu & Hf & Hi).
    rewrite Hu, Hf, Hi. unfold initializeBody.
    destruct (getCodePoint (unicodeData p) i) as [c |] eqn:E; cbn [unicodeData unicodeDataInitialized items addItem].
    + rewrite filter_cons_True by (rewrite E; by eexists).
      rewrite fmap_cons, <- app_assoc. done.
    + rewrite filter_cons_False by (rewrite E; by intros [? ?]). done.
Qed.

(** X3.  What [initialize] does do: it appends one item of weight 1 for each id
    of [0, 0xFFFF] that the backing index knows, in increasing order of id,
    and nothing else; the index and the flag are left as they are. *)
Lemma initialize_seeds (p : Pool) :
  items (initialize p)
  = items p ++ ((λ id, {| item_id := id; weight := 1%float |})
                  <$> filter (λ id, is_Some (getCodePoint (unicodeData p) id)) (seqZ 0 65536))
  ∧ unicodeData (initialize p) = unicodeData p
  ∧ unicodeDataInitialized (initialize p) = unicodeDataInitialized p.
Proof.
  unfold initialize.
  destruct (initialize_loop (seqZ 0 65536) p) as (Hu & Hf & Hi).
  exact (conj Hi (conj Hu Hf)).
Qed.

Lemma filter_empty_index (l : list Z) :
  filter (λ id, is_Some (getCodePoint newUnicodeData id)) l = [].
Proof.
  induction l as [| i l IH]; [done |].
  rewrite filter_cons_False; [exact IH |].
  unfold getCodePoint. cbn [newUnicodeData data]. rewrite lookup_empty. by intros [? ?].
Qed.

(** C7, at the failing input.  A pool built with no index, while the
    module-level index is unset, owns a fresh empty index and has its flag
    unset; [initialize] neither reads the flag nor loads: afterwards the index
    is still empty, the flag still unset and the pool has no item, whatever
    [UnicodeData.txt] holds. *)
Lemma C7_initialize_failing_input :
  unicodeDataInitialized (newPool None None) = false
  ∧ unicodeData (initialize (newPool None None)) = newUnicodeData
  ∧ unicodeDataInitialized (initialize (newPool None None)) = false
  ∧ items (initialize (newPool None None)) = []
  ∧ ∀ amount random, draw (initialize (newPool None None)) amount random = [].
Proof.
  destruct (initialize_loop (seqZ 0 65536) (newPool None None)) as (Hu & Hf & Hi).
  rewrite filter_empty_index in Hi. unfold initialize.
  split; [reflexivity |].
  split; [exact Hu |].
  split; [exact Hf |].
  split; [exact Hi |].
  intros amount random. unfold draw. rewrite Hi. reflexivity.
Qed.

Lemma Part000_initialize_loop (l : list Z) : ∀ p : Part000.UnicodeBMPPool,
  Part000.unicodeData (foldl Part000.initializeBody p l) = Part000.unicodeData p
  ∧ Part000.unicodeDataInitialized (foldl Part000.initializeBody p l)
    = Part000.unicodeDataInitialized p
  ∧ Part000.id <$> Part000.items (foldl Part000.initializeBody p l)
    = (Part000.id <$> Part000.items p)
      ++ filter (λ id, is_Some (Part000.unicodeData p !! id)) l.
Proof.
  induction l as [| i l IH]; intros p; cbn [foldl].
  - rewrite filter_nil, app_nil_r. done.
  - destruct (IH (Part000.initializeBody p i)) as (Hu & Hf & Hi).
    rewrite Hu, Hf, Hi. unfold Part000.initializeBody.
    destruct (Part000.unicodeData p !! i) as [c |] eqn:E;
      cbn [Part000.unicodeData Part000.unicodeDataInitialized Part000.items Part000.addItem].
    + rewrite filter_cons_True by (rewrite E; by eexists).
      rewrite fmap_app, <- app_assoc. done.
    + rewrite filter_cons_False by (rewrite E; by intros [? ?]). done.
Qed.

(** X4.  The earlier variant does what C7 says: on a pool whose flag is
    unset, [initialize] loads the index first, sets the flag, and seeds from
    the loaded index, one item per known id of [0, 0xFFFF] in increasing
    order. *)
Lemma Part000_initialize_loads (fileContent : list Z) (p : Part000.UnicodeBMPPool)
    (d : gmap Z CodePointData) :
  Part000.unicodeDataInitialized p = false →
  loadCodePoints 0 65535 fileContent (Part000.unicodeData p) = (d, Completed) →
  let p' := (Part000.initialize fileContent p).1 in
  Part000.unicodeData p' = d
  ∧ Part000.unicodeDataInitialized p' = true
  ∧ Part000.id <$> Part000.items p'
    = (Part000.id <$> Part000.items p)
      ++ filter (λ id, is_Some (d !! id)) (seqZ 0 65536).
Proof.
  intros Hflag Hload. unfold Part000.initialize. rewrite Hflag, Hload. cbn [fst].
  destruct (Part000_initialize_loop (seqZ 0 65536)
              {| Part000.items := Part000.items p; Part000.unicodeData := d;
                 Part000.unicodeDataInitialized := true |}) as (Hu & Hf & Hi).
  exact (conj Hu (conj Hf Hi)).
Qed.

Lemma Part000_initialize_loads_witness :
  Part000.unicodeDataInitialized
    (Part000.initialize Spec.cjkRangeFile (Part000.newUnicodeBMPPool None None)).1 = true.
Proof.
  refine (proj1 (proj2 (Part000_initialize_loads Spec.cjkRangeFile
                          (Part000.newUnicodeBMPPool None None)
                          (loadCodePoints 0 65535 Spec.cjkRangeFile ∅).1 _ _)));
    [reflexivity | vm_compute; reflexivity].
Defined.

(** X24.  In the earlier variant, [initialize] on a pool whose flag is set
    does not load again: the index is the one the pool had, whatever the
    file holds, and the flag stays set. *)
Lemma Part000_initialize_once (fileContent : list Z) (p : Part000.UnicodeBMPPool) :
  Part000.unicodeDataInitialized p = true →
  Part000.unicodeData (Part000.initialize fileContent p).1 = Part000.unicodeData p
  ∧ Part000.unicodeDataInitialized (Part000.initialize fileContent p).1 = true.
Proof.
  intros Hflag. unfold Part000.initialize. rewrite Hflag. cbn [fst].
  destruct (Part000_initialize_loop (seqZ 0 65536) p) as (Hu & Hf & _).
  rewrite Hu, Hf. split; [reflexivity | exact Hflag].
Qed.

Lemma Part000_initialize_once_witness :
  Part000.unicodeData
    (Part000.initialize Spec.cjkRangeFile
       (Part000.newUnicodeBMPPool None (Some (data Spec.smallIndex)))).1
  = Part000.unicodeData (Part000.newUnicodeBMPPool None (Some (data Spec.smallIndex)))
  ∧ Part000.unicodeDataInitialized
      (Part000.initialize Spec.cjkRangeFile
         (Part000.newUnicodeBMPPool None (Some (data Spec.smallIndex)))).1 = true.
Proof.
  apply (Part000_initialize_once Spec.cjkRangeFile
           (Part000.newUnicodeBMPPool None (Some (data Spec.smallIndex)))).
  reflexivity.
Defined.

(** ** The card formatter *)

Lemma sliceFrom_1 (s : list Z) : sliceFrom s 1 = drop 1 s.
Proof.
  unfold sliceFrom, slice.
  destruct s as [| c s]; [done |].
  set (len := Z.of_nat (length (c :: s))).
  assert (Hlen : len = Z.of_nat (length s) + 1) by (subst len; cbn [length]; lia).
  assert (Ha : clampIndex len 1 = 1).
  { unfold clampIndex. destruct (Z.ltb_spec 1 0); lia. }
  assert (Hb : clampIndex len len = len).
  { unfold clampIndex. destruct (Z.ltb_spec len 0); lia. }
  rewrite Ha, Hb. change (Z.to_nat 1) with 1%nat.
  change (drop 1 (c :: s)) with s.
  apply take_ge. lia.
Qed.

Lemma mapM_readingLine (rs : list CJKReading) :
  (∀ r, r ∈ rs → is_Some (field r)) →
  mapM readingLine rs
  = Ok ((λ r, Spec.readingLine (ToString (field r)) (ToString (text r))) <$> rs).
Proof.
  induction rs as [| r rs IH]; intros Hrs; [done |].
  cbn [mapM fmap list_fmap].
  destruct (Hrs r ltac:(left)) as [f Hf].
  rewrite IH by (intros; apply Hrs; by right).
  unfold readingLine at 1. rewrite Hf. cbn [bind ToString].
  unfold Spec.readingLine. by rewrite sliceFrom_1.
Qed.

Lemma mapM_readingLine_raises (rs : list CJKReading) :
  (∃ r, r ∈ rs ∧ field r = None) → mapM readingLine rs = TypeError.
Proof.
  induction rs as [| x rs IH]; intros (r & Hin & Hr).
  - by apply elem_of_nil in Hin.
  - cbn [mapM]. unfold readingLine at 1.
    destruct (field x) as [f |] eqn:Ef; [| reflexivity]. cbn [bind].
    apply elem_of_cons in Hin as [-> | Hin]; [congruence |].
    rewrite IH by (by exists r). reflexivity.
Qed.

(** C4.  [getCardData] returns absent exactly when [getCodePoint] does.
    For a known id it raises a [TypeError] when one of the id's readings has
    no field-tag.  Otherwise it returns a card whose character is the id as
    one UTF-16 code unit; whose colour is the colour of the block that
    contains the id, or [#ffffff] when no block contains it or that colour is
    empty; and whose description is the Name line, the Block line, a line
    feed and then one line per reading, made of the field-tag without its
    first character, a colon and a space, and the text, joined by line
    feeds.  The Block line shows the name of the block that contains the id,
    or [Unknown] when no block contains it and also when that block's name
    is empty or missing.  With no reading the description is the Name line
    and the Block line followed by a line feed. *)
Theorem C4_card_data (u : UnicodeData) (id : Z) :
  (getCardData u id = Ok None ↔ getCodePoint u id = None)
  ∧ ∀ c, getCodePoint u id = Some c →
      ((∃ r, r ∈ getCJKReading u id ∧ field r = None) →
       getCardData u id = TypeError)
      ∧ ((∀ r, r ∈ getCJKReading u id → is_Some (field r)) →
         ∃ card,
           getCardData u id = Ok (Some card)
           ∧ card_id card = id
           ∧ card_name card = name c
           ∧ char card = [id `mod` 65536]
           ∧ blockColor card
             = match getBlock u id with
               | Some b => match block_color b with
                           | [] => lit "#ffffff"
                           | color => color
                           end
               | None => lit "#ffffff"
               end
           ∧ description card
             = lit "Name: " ++ ToString (name c) ++ [10]
               ++ lit "Block: "
               ++ match getBlock u id with
                  | Some b => match block_name b with
                              | Some (x :: nm) => x :: nm
                              | _ => lit "Unknown"
                              end
                  | None => lit "Unknown"
                  end
               ++ [10]
               ++ join [10] ((λ r, Spec.readingLine (ToString (field r)) (ToString (text r)))
                               <$> getCJKReading u id)
           ∧ (getCJKReading u id = [] →
              description card
              = lit "Name: " ++ ToString (name c) ++ [10]
                ++ lit "Block: "
                ++ match getBlock u id with
                   | Some b => match block_name b with
                               | Some (x :: nm) => x :: nm
                               | _ => lit "Unknown"
                               end
                   | None => lit "Unknown"
                   end
                ++ [10])).
Proof.
  unfold getCardData.
  destruct (getCodePoint u id) as [c |] eqn:Ec.
  - split.
    { split; [| discriminate].
      destruct (mapM readingLine (getCJKReading u id)); discriminate. }
    intros c' [= <-]. split.
    + intros Hbad. by rewrite (mapM_readingLine_raises _ Hbad).
    + intros Hreadings. rewrite (mapM_readingLine _ Hreadings). cbn [bind].
      eexists. split; [reflexivity |].
      cbn [card_id card_name char blockColor description].
      assert (Hname : orElse (getBlock u id ≫= block_name) (lit "Unknown")
                      = match getBlock u id with
                        | Some b => match block_name b with
                                    | Some (x :: nm) => x :: nm
                                    | _ => lit "Unknown"
                                    end
                        | None => lit "Unknown"
                        end).
      { destruct (getBlock u id) as [b |]; [| reflexivity].
        cbn. by destruct (block_name b) as [[| x nm] |]. }
      assert (Hcolor : orElse (block_color <$> getBlock u id) (lit "#ffffff")
                       = match getBlock u id with
                         | Some b => match block_color b with
                                     | [] => lit "#ffffff"
                                     | color => color
                                     end
                         | None => lit "#ffffff"
                         end).
      { destruct (getBlock u id) as [b |]; [| reflexivity].
        cbn. by destruct (block_color b). }
      rewrite Hname, Hcolor.
      split; [reflexivity |]. split; [reflexivity |]. split; [reflexivity |].
      split; [reflexivity |].
      split.
      * by rewrite <- !app_assoc.
      * intros ->. cbn [fmap list_fmap join]. by rewrite <- !app_assoc, app_nil_r.
  - split; [done |]. discriminate.
Qed.

Lemma C4_card_data_witness :
  ∃ card,
    getCardData Spec.sampleIndex 0x4E00 = Ok (Some card)
    ∧ char card = [0x4E00]
    ∧ blockColor card = blockColorOf (lit " CJK Unified Ideographs")
    ∧ description card
      = lit "Name: CJK IDEOGRAPH 4E00" ++ [10]
        ++ lit "Block:  CJK Unified Ideographs" ++ [10]
        ++ lit "Definition: one; a, an; alone" ++ [10]
        ++ lit "Mandarin: yi".
Proof.
  assert (Hb : getBlock Spec.sampleIndex 0x4E00
               = Some {| block_id := 1; block_start := Some 0x4E00; block_end := Some 0x9FFF;
                         block_name := Some (lit " CJK Unified Ideographs");
                         block_color := blockColorOf (lit " CJK Unified Ideographs") |})
    by (vm_compute; reflexivity).
  assert (Hr : getCJKReading Spec.sampleIndex 0x4E00
               = [ {| field := Some (lit "kDefinition"); text := Some (lit "one; a, an; alone") |};
                   {| field := Some (lit "kMandarin"); text := Some (lit "yi") |} ])
    by (vm_compute; reflexivity).
  assert (Hc : getCodePoint Spec.sampleIndex 0x4E00
               = Some (Spec.cjkIdeograph 0x4E00 "CJK IDEOGRAPH 4E00"))
    by (vm_compute; reflexivity).
  destruct (C4_card_data Spec.sampleIndex 0x4E00) as [_ Hcard].
  destruct (Hcard _ Hc) as [_ Hok].
  destruct Hok as (card & Hget & _ & _ & Hchar & Hcolor & Hdesc & _).
  - intros r. rewrite Hr. intros Hin.
    apply elem_of_cons in Hin as [-> | Hin]; [eexists; reflexivity |].
    apply elem_of_cons in Hin as [-> | Hin]; [eexists; reflexivity |].
    destruct (proj1 (elem_of_nil r) Hin).
  - exists card. split; [exact Hget |].
    split; [exact Hchar |].
    split; [rewrite Hcolor, Hb; vm_compute; reflexivity |].
    rewrite Hdesc, Hb, Hr. vm_compute. reflexivity.
Defined.

(** C4, counterexample.  Two indexes that [initUnicodeData] builds without
    raising.  With the block line [0041..0041;] a block contains U+0041, its
    name is empty, and the card says [Block: Unknown]; the description,
    without readings, ends with a line feed.  With the reading line [U+0041]
    the code point is known, the reading has no field-tag, and [getCardData]
    raises instead of returning a card. *)
Lemma C4_card_data_counterexample :
  (initUnicodeData Spec.latinALine (lit "0041..0041;") []).2 = Completed
  ∧ (∃ b, getBlock (initUnicodeData Spec.latinALine (lit "0041..0041;") []).1 0x41 = Some b
          ∧ block_start b = Some 0x41 ∧ block_end b = Some 0x41
          ∧ block_name b = Some [])
  ∧ (∃ card,
       getCardData (initUnicodeData Spec.latinALine (lit "0041..0041;") []).1 0x41
       = Ok (Some card)
       ∧ description card
         = lit "Name: LATIN CAPITAL LETTER A" ++ [10] ++ lit "Block: Unknown" ++ [10])
  ∧ (initUnicodeData Spec.latinALine [] (lit "U+0041")).2 = Completed
  ∧ is_Some (getCodePoint (initUnicodeData Spec.latinALine [] (lit "U+0041")).1 0x41)
  ∧ getCardData (initUnicodeData Spec.latinALine [] (lit "U+0041")).1 0x41 = TypeError.
Proof.
  split; [vm_compute; reflexivity |].
  split; [eexists; split; [vm_compute; reflexivity |]; cbn; auto |].
  split; [eexists; split; [vm_compute; reflexivity |]; vm_compute; reflexivity |].
  split; [vm_compute; reflexivity |].
  split; [vm_compute; by eexists |].
  vm_compute. reflexivity.
Qed.

(** ** Parsing a code-point line and writing it back *)

(** Splitting at a one-unit separator undoes joining fields that do not
    hold the separator. *)
Lemma splitGo_field (c : Z) (f : list Z) : ∀ cur : list Z,
  c ∉ f →
  splitGo [c] 0 cur f = [reverse cur ++ f]
  ∧ ∀ rest, splitGo [c] 0 cur (f ++ c :: rest)
            = (reverse cur ++ f) :: splitGo [c] 0 [] rest.
Proof.
  induction f as [| x f IH]; intros cur Hc.
  - split; [by rewrite app_nil_r |].
    intros rest. cbn [app splitGo startsWith length Nat.sub].
    rewrite Z.eqb_refl. cbn [andb]. by rewrite app_nil_r.
  - apply not_elem_of_cons in Hc as [Hne Hc].
    destruct (IH (x :: cur) Hc) as [IH1 IH2].
    rewrite reverse_cons, <- app_assoc in IH1, IH2. cbn [app] in IH1, IH2.
    cbn [app splitGo startsWith].
    destruct (Z.eqb_spec c x) as [-> | _]; [done |]. cbn [andb].
    split; [exact IH1 | exact IH2].
Qed.

Lemma split_join (c : Z) (fields : list (list Z)) :
  fields ≠ [] → Forall (λ f, c ∉ f) fields →
  split (join [c] fields) [c] = fields.
Proof.
  unfold split.
  induction fields as [| f fields IH]; intros Hne Hall; [done |].
  apply Forall_cons in Hall as [Hf Hall].
  destruct (splitGo_field c f [] Hf) as [H1 H2].
  destruct fields as [| g fields].
  - cbn [join]. exact H1.
  - change (join [c] (f :: g :: fields)) with (f ++ c :: join [c] (g :: fields)).
    rewrite H2, IH by done. done.
Qed.

(** The value of a digit string, digit by digit from the left. *)
Lemma digitsValue_foldl (ds : list Z) : ∀ a : Z,
  foldl (λ acc c, 16 * acc + default 0 (hexValue c)) a ds
  = a * 16 ^ Z.of_nat (length ds) + digitsValue ds.
Proof.
  unfold digitsValue.
  induction ds as [| c ds IH]; intros a; cbn [foldl length]; [lia |].
  rewrite (IH (16 * a + _)), (IH (16 * 0 + _)).
  rewrite Nat2Z.inj_succ, Z.pow_succ_r by lia. lia.
Qed.

Lemma digitsValue_cons (c : Z) (ds : list Z) :
  digitsValue (c :: ds)
  = default 0 (hexValue c) * 16 ^ Z.of_nat (length ds) + digitsValue ds.
Proof.
  unfold digitsValue at 1. cbn [foldl]. rewrite digitsValue_foldl. lia.
Qed.

Lemma upperHex_value (c : Z) :
  Spec.isUpperHexDigit c = true →
  ∃ v, hexValue c = Some v ∧ 0 ≤ v < 16 ∧ upperUnit (hexChar v) = c ∧ (v = 0 ↔ c = 48).
Proof.
  intros H.
  assert (Hrange : 48 ≤ c ≤ 57 ∨ 65 ≤ c ≤ 70).
  { unfold Spec.isUpperHexDigit in H.
    destruct (Z.leb_spec 48 c), (Z.leb_spec c 57), (Z.leb_spec 65 c), (Z.leb_spec c 70);
      cbn in H; try discriminate; lia. }
  assert (Hcases : c = 48 ∨ c = 49 ∨ c = 50 ∨ c = 51 ∨ c = 52 ∨ c = 53 ∨ c = 54 ∨ c = 55
                   ∨ c = 56 ∨ c = 57 ∨ c = 65 ∨ c = 66 ∨ c = 67 ∨ c = 68 ∨ c = 69
                   ∨ c = 70) by lia.
  repeat (destruct Hcases as [-> | Hcases];
          [eexists; split; [reflexivity | split; [lia | split; [reflexivity | lia]]] |]).
  subst c. eexists; split; [reflexivity | split; [lia | split; [reflexivity | lia]]].
Qed.

Lemma upperHex_isHexDigit (c : Z) :
  Spec.isUpperHexDigit c = true → isHexDigit c = true.
Proof.
  intros H. destruct (upperHex_value c H) as (v & Hv & _).
  unfold isHexDigit. by rewrite Hv.
Qed.

(** Leading zeros do not count, and a string of value zero is all zeros. *)
Lemma stripZeros_snoc (ds : list Z) (c : Z) :
  Forall (λ c, Spec.isUpperHexDigit c = true) ds →
  Spec.stripZeros (ds ++ [c])
  = if digitsValue ds =? 0 then [c] else Spec.stripZeros ds ++ [c].
Proof.
  induction ds as [| x ds IH]; intros Hall; [done |].
  apply Forall_cons in Hall as [Hx Hall].
  destruct (upperHex_value x Hx) as (v & Hv & Hvb & _ & Hv0).
  rewrite digitsValue_cons, Hv. change (default 0 (Some v)) with v.
  pose proof (digitsValue_nonneg ds) as Hds.
  assert (Hpow : 0 < 16 ^ Z.of_nat (length ds)) by (apply Z.pow_pos_nonneg; lia).
  change ((x :: ds) ++ [c]) with (x :: (ds ++ [c])).
  assert (Hstrip : Spec.stripZeros (x :: (ds ++ [c]))
                   = if x =? 48 then Spec.stripZeros (ds ++ [c]) else x :: (ds ++ [c])).
  { destruct ds; reflexivity. }
  rewrite Hstrip. destruct (Z.eqb_spec x 48) as [-> | Hne].
  - assert (v = 0) by (by apply Hv0). subst v.
    rewrite IH by done. rewrite Z.mul_0_l, Z.add_0_l.
    destruct (Z.eqb_spec (digitsValue ds) 0) as [_ | Hnz]; [done |].
    destruct ds as [| y ds]; [by destruct Hnz | reflexivity].
  - assert (v ≠ 0) by (intros ->; apply Hne; by apply Hv0).
    destruct (Z.eqb_spec (v * 16 ^ Z.of_nat (length ds) + digitsValue ds) 0); [nia |].
    destruct ds as [| y ds].
    + reflexivity.
    + change (Spec.stripZeros (x :: y :: ds))
        with (if x =? 48 then Spec.stripZeros (y :: ds) else x :: y :: ds).
      destruct (Z.eqb_spec x 48); [done | reflexivity].
Qed.

Lemma stripZeros_zeros (ds : list Z) :
  ∃ k, ds = replicate k 48 ++ Spec.stripZeros ds.
Proof.
  induction ds as [| x ds IH]; [by exists 0%nat |].
  destruct ds as [| y ds]; [by exists 0%nat |].
  change (Spec.stripZeros (x :: y :: ds))
    with (if x =? 48 then Spec.stripZeros (y :: ds) else x :: y :: ds).
  destruct (Z.eqb_spec x 48) as [-> | Hne]; [| by exists 0%nat].
  destruct IH as [k IH]. exists (S k). cbn [replicate app]. by rewrite <- IH.
Qed.

(** Rendering the value of a digit string gives the string back, without
    its leading zeros and in lower case (upper case restores it). *)
Lemma hexDigits_digitsValue (ds : list Z) :
  Forall (λ c, Spec.isUpperHexDigit c = true) ds → ds ≠ [] →
  ∀ (fuel : nat) (acc : list Z),
    digitsValue ds < 2 ^ Z.of_nat fuel → (1 ≤ fuel)%nat →
    toUpperCase (hexDigits fuel (digitsValue ds) acc)
    = Spec.stripZeros ds ++ toUpperCase acc.
Proof.
  induction ds as [| c ds IH] using rev_ind; intros Hall Hne fuel acc Hfuel Hf1; [done |].
  apply Forall_app in Hall as [Hall Hc]. apply Forall_cons in Hc as [Hc _].
  destruct (upperHex_value c Hc) as (v & Hv & Hvb & Hup & _).
  rewrite digitsValue_snoc, Hv in *. change (default 0 (Some v)) with v in *.
  pose proof (digitsValue_nonneg ds) as Hds.
  destruct fuel as [| fuel]; [lia |]. cbn [hexDigits].
  assert (Hmod : (16 * digitsValue ds + v) `mod` 16 = v).
  { rewrite Z.add_comm, Z.mul_comm, Z_mod_plus_full. by apply Z.mod_small. }
  assert (Hdiv : (16 * digitsValue ds + v) `div` 16 = digitsValue ds).
  { rewrite Z.add_comm, Z.mul_comm, Z_div_plus_full by lia.
    rewrite Z.div_small by lia. lia. }
  rewrite Hmod, Hdiv, stripZeros_snoc by done.
  destruct (Z.eqb_spec (digitsValue ds) 0) as [Hz | Hnz].
  - unfold toUpperCase. cbn [fmap list_fmap app]. by rewrite Hup.
  - assert (Hpow : 2 ^ Z.of_nat (S fuel) = 2 * 2 ^ Z.of_nat fuel).
    { rewrite Nat2Z.inj_succ, Z.pow_succ_r by lia. done. }
    assert (Hf : (1 ≤ fuel)%nat).
    { destruct fuel; [| lia]. cbn in Hfuel. lia. }
    rewrite IH; [| done | by intros -> | lia | done].
    unfold toUpperCase. cbn [fmap list_fmap]. rewrite Hup, <- app_assoc. done.
Qed.

Lemma idHex_canonical (f0 : list Z) :
  Spec.canonicalHex f0 → Page.idHex (digitsValue f0) = f0.
Proof.
  intros (Hall & Hlen & Hlead).
  assert (Hne : f0 ≠ []) by (intros ->; cbn in Hlen; lia).
  pose proof (digitsValue_nonneg f0) as Hnn.
  unfold Page.idHex, toString16.
  destruct (Z.ltb_spec (digitsValue f0) 0); [lia |].
  rewrite (hexDigits_digitsValue f0 Hall Hne); [| by apply log2_fuel | lia].
  unfold toUpperCase. cbn [fmap list_fmap]. rewrite app_nil_r.
  unfold padStart0.
  destruct (decide (4 < length f0)%nat) as [Hlong | Hshort].
  - specialize (Hlead Hlong).
    assert (Hstrip : Spec.stripZeros f0 = f0).
    { destruct f0 as [| x [| y f0]]; try done.
      change (Spec.stripZeros (x :: y :: f0))
        with (if x =? 48 then Spec.stripZeros (y :: f0) else x :: y :: f0).
      destruct (Z.eqb_spec x 48) as [-> | _]; [| done]. by destruct Hlead. }
    rewrite Hstrip. replace (4 - length f0)%nat with 0%nat by lia. done.
  - destruct (stripZeros_zeros f0) as [k Hk].
    assert (Hk' : length f0 = (k + length (Spec.stripZeros f0))%nat).
    { rewrite Hk at 1. by rewrite length_app, length_replicate. }
    replace (4 - length (Spec.stripZeros f0))%nat with k by lia.
    by rewrite <- Hk.
Qed.

Lemma parseCodePoint_fields (f0 : list Z) (rest : list (list Z)) :
  length rest = 14%nat → Forall (λ f, 59 ∉ f) (f0 :: rest) →
  parseCodePoint (join (lit ";") (f0 :: rest))
  = {| id := parseInt16 f0;
       name := rest !! 0%nat;
       general_category := rest !! 1%nat;
       canonical_combining_class := rest !! 2%nat;
       bidi_class := rest !! 3%nat;
       decomposition_type := rest !! 4%nat;
       decomposition_mapping := rest !! 5%nat;
       numeric_type := rest !! 6%nat;
       numeric_value := rest !! 7%nat;
       bidi_mirrored := rest !! 8%nat;
       unicode_1_name := rest !! 9%nat;
       iso_comment := rest !! 10%nat;
       simple_uppercase_mapping := rest !! 11%nat;
       simple_lowercase_mapping := rest !! 12%nat;
       simple_titlecase_mapping := rest !! 13%nat |}.
Proof.
  intros Hlen Hall. unfold parseCodePoint.
  change (lit ";") with [59].
  rewrite split_join by done. reflexivity.
Qed.

Lemma serialize_fields (render : Z → list Z) (f0 : list Z) (rest : list (list Z)) (n : Z) :
  length rest = 14%nat → Forall (λ f, 59 ∉ f) (f0 :: rest) →
  parseInt16 f0 = Some n →
  Spec.serialize render (parseCodePoint (join (lit ";") (f0 :: rest)))
  = join (lit ";") (render n :: rest).
Proof.
  intros Hlen Hall Hn. rewrite parseCodePoint_fields, Hn by done.
  do 14 (destruct rest as [| ? rest]; [discriminate |]).
  destruct rest; [| discriminate]. reflexivity.
Qed.

(** C9 (as amended).  For a line of 15 fields without semicolons whose
    first field is a run of hexadecimal digits, parsing and writing back
    yields the 14 other fields exactly, after the rendering of the parsed
    id; the line comes back exactly when that rendering is the first field,
    which is the case, for the rendering of ids of the page
    ([toString(16).toUpperCase().padStart(4, '0')]), of every line that
    spells its code point as [UnicodeData.txt] does: upper-case digits, at
    least four, no leading zero beyond the fourth. *)
Theorem C9_parse_roundtrip (render : Z → list Z) (fields : list (list Z)) :
  Spec.validFields fields →
  ∃ f0 rest n,
    fields = f0 :: rest
    ∧ parseInt16 f0 = Some n
    ∧ id (parseCodePoint (join (lit ";") fields)) = Some n
    ∧ Spec.serialize render (parseCodePoint (join (lit ";") fields))
      = join (lit ";") (render n :: rest)
    ∧ (render n = f0 →
       Spec.serialize render (parseCodePoint (join (lit ";") fields))
       = join (lit ";") fields)
    ∧ (Spec.canonicalHex f0 →
       Spec.serialize Page.idHex (parseCodePoint (join (lit ";") fields))
       = join (lit ";") fields).
Proof.
  intros (Hlen & Hall & f0 & Hf0 & Hne & Hhex).
  destruct fields as [| f rest]; [discriminate |].
  cbn in Hf0. injection Hf0 as ->. cbn [length] in Hlen.
  assert (Hrest : length rest = 14%nat) by lia.
  pose proof (parseInt16_hex f0 Hne Hhex) as Hparse.
  exists f0, rest, (digitsValue f0).
  split; [done |]. split; [done |]. split.
  { rewrite parseCodePoint_fields by done. exact Hparse. }
  split; [by apply serialize_fields |]. split.
  - intros Hrender. rewrite (serialize_fields render f0 rest _ Hrest Hall Hparse).
    by rewrite Hrender.
  - intros Hcanon. rewrite (serialize_fields Page.idHex f0 rest _ Hrest Hall Hparse).
    by rewrite idHex_canonical.
Qed.

Lemma latinA_valid (f0 : string) :
  Spec.hexString (lit f0) → Spec.validFields (lit f0 :: Spec.latinA).
Proof.
  intros Hhex. split; [reflexivity |]. split.
  - constructor.
    + destruct Hhex as [_ Hall]. intros Hin.
      rewrite Forall_forall in Hall. specialize (Hall 59 Hin). discriminate.
    + repeat constructor; intros Hin;
        repeat (apply elem_of_cons in Hin as [Hin | Hin]; [discriminate |]);
        by apply elem_of_nil in Hin.
  - exists (lit f0). split; [reflexivity | exact Hhex].
Qed.

Lemma C9_parse_roundtrip_witness :
  Spec.serialize Page.idHex
    (parseCodePoint (lit "0041;LATIN CAPITAL LETTER A;Lu;0;L;;;;;N;;;;0061;"))
  = lit "0041;LATIN CAPITAL LETTER A;Lu;0;L;;;;;N;;;;0061;".
Proof.
  destruct (C9_parse_roundtrip Page.idHex (lit "0041" :: Spec.latinA))
    as (f0 & rest & n & Hf & _ & _ & _ & _ & Hcanon).
  - apply (latinA_valid "0041"). split; [discriminate | repeat constructor].
  - injection Hf as <- <-. apply Hcanon.
    split; [repeat constructor |]. split; [cbn; lia |]. cbn. lia.
Defined.

(** C9, counterexample.  No rendering of ids makes every valid line come
    back: the lines that spell the code point of LATIN CAPITAL LETTER A as
    [41] and as [0041] parse to the same record.  With [toString(16)], the
    rendering the library itself uses, the line of [UnicodeData.txt] comes
    back with [41] for [0041]. *)
Lemma C9_parse_roundtrip_counterexample :
  ¬ (∃ render : Z → list Z,
       ∀ fields, Spec.validFields fields →
                 Spec.serialize render (parseCodePoint (join (lit ";") fields))
                 = join (lit ";") fields)
  ∧ Spec.validFields (lit "0041" :: Spec.latinA)
  ∧ Spec.serialize toString16 (parseCodePoint (join (lit ";") (lit "0041" :: Spec.latinA)))
    = lit "41;LATIN CAPITAL LETTER A;Lu;0;L;;;;;N;;;;0061;"
  ∧ join (lit ";") (lit "0041" :: Spec.latinA)
    = lit "0041;LATIN CAPITAL LETTER A;Lu;0;L;;;;;N;;;;0061;".
Proof.
  split; [| split; [| split]].
  - intros [render Hall].
    pose proof (Hall (lit "41" :: Spec.latinA)
                  (latinA_valid "41" ltac:(split; [discriminate | repeat constructor]))) as H1.
    pose proof (Hall (lit "0041" :: Spec.latinA)
                  (latinA_valid "0041" ltac:(split; [discriminate | repeat constructor]))) as H2.
    assert (E : parseCodePoint (join (lit ";") (lit "41" :: Spec.latinA))
                = parseCodePoint (join (lit ";") (lit "0041" :: Spec.latinA)))
      by (vm_compute; reflexivity).
    rewrite E, H2 in H1. vm_compute in H1. discriminate H1.
  - apply (latinA_valid "0041"). split; [discriminate | repeat constructor].
  - vm_compute. reflexivity.
  - vm_compute. reflexivity.
Qed.

(** * Further properties of the index and of the pool *)

(** ** Blocks *)

Lemma contains_test (b : BlockData) (codePoint : Z) :
  geNum codePoint (block_start b) && leNum codePoint (block_end b) = true
  ↔ Spec.contains b codePoint.
Proof.
  unfold Spec.contains, geNum, leNum.
  destruct (block_start b) as [s |], (block_end b) as [e |]; cbn [andb].
  - destruct (Z.leb_spec s codePoint), (Z.leb_spec codePoint e); cbn [andb]; split;
      try discriminate; try (intros (s' & e' & [= <-] & [= <-] & ?); lia).
    intros _. exists s, e. repeat split; lia.
  - split; [by rewrite andb_false_r | by intros (? & ? & _ & ? & _)].
  - split; [done | by intros (? & ? & ? & _)].
  - split; [done | by intros (? & ? & ? & _)].
Qed.

Lemma firstBlock_spec (bs : list BlockData) (codePoint : Z) :
  (firstBlock bs codePoint = None ↔ Forall (λ b, ¬ Spec.contains b codePoint) bs)
  ∧ ∀ b, firstBlock bs codePoint = Some b ↔
         ∃ pre post, bs = pre ++ b :: post
                     ∧ Spec.contains b codePoint
                     ∧ Forall (λ b', ¬ Spec.contains b' codePoint) pre.
Proof.
  induction bs as [| x bs [IHn IHs]]; cbn [firstBlock].
  - split; [split; [constructor | done] |].
    intros b. split; [done |]. intros (pre & post & E & _). by destruct pre.
  - destruct (geNum codePoint (block_start x) && leNum codePoint (block_end x)) eqn:E.
    + apply contains_test in E. split.
      * split; [done |]. intros H. apply Forall_cons in H as [H _]. done.
      * intros b. split.
        -- intros [= <-]. exists [], bs. repeat split; [done | constructor].
        -- intros (pre & post & Ebs & Hb & Hpre). destruct pre as [| y pre].
           ++ cbn in Ebs. by injection Ebs as <- _.
           ++ cbn in Ebs. injection Ebs as <- _.
              apply Forall_cons in Hpre as [Hy _]. done.
    + assert (Hx : ¬ Spec.contains x codePoint).
      { intros H. apply contains_test in H. congruence. }
      split.
      * rewrite IHn. split; [by constructor | by intros [_ ?]%Forall_cons].
      * intros b. rewrite IHs. split.
        -- intros (pre & post & -> & Hb & Hpre). exists (x :: pre), post.
           repeat split; [done | by constructor].
        -- intros (pre & post & Ebs & Hb & Hpre). destruct pre as [| y pre].
           ++ cbn in Ebs. injection Ebs as <- _. done.
           ++ cbn in Ebs. injection Ebs as <- ->.
              apply Forall_cons in Hpre as [_ Hpre]. by exists pre, post.
Qed.

(** X6.  [getBlock] returns the first block, in list order, whose range
    contains the code point, both ends included, and is absent exactly when
    no block contains it: when no block is loaded, and also for a block one of
    whose bounds did not parse. *)
Theorem getBlock_spec (u : UnicodeData) (codePoint : Z) :
  (getBlock u codePoint = None ↔ Forall (λ b, ¬ Spec.contains b codePoint) (blocks u))
  ∧ (∀ b, getBlock u codePoint = Some b ↔
          ∃ pre post, blocks u = pre ++ b :: post
                      ∧ Spec.contains b codePoint
                      ∧ Forall (λ b', ¬ Spec.contains b' codePoint) pre)
  ∧ (blocks u = [] → getBlock u codePoint = None)
  ∧ (∀ b s e, getBlock u codePoint = Some b →
              block_start b = Some s → block_end b = Some e → s ≤ codePoint ≤ e).
Proof.
  destruct (firstBlock_spec (blocks u) codePoint) as [Hn Hs].
  assert (E : getBlock u codePoint = firstBlock (blocks u) codePoint).
  { unfold getBlock. by destruct (blocks u). }
  rewrite E. split; [exact Hn |]. split; [exact Hs |]. split.
  - intros ->. reflexivity.
  - intros b s e Hb Hstart Hend. apply Hs in Hb as (_ & _ & _ & (s' & e' & Hs' & He' & Hle) & _).
    congruence.
Qed.

Lemma loadBlocksBody_skip (st : list BlockData * Z) (line : list Z) :
  skippedLine line = true → loadBlocksBody st line = Ok st.
Proof. intros H. unfold loadBlocksBody. destruct st. by rewrite H. Qed.

Lemma loadBlocksBody_keep (bs : list BlockData) (n : nat) (line : list Z) :
  skippedLine line = false →
  loadBlocksBody (bs, Z.of_nat n) line
  = match block_name (parseBlock line) with
    | None => TypeError
    | Some _ => Ok (bs ++ [Spec.blockOfLine n line], Z.of_nat (S n))
    end.
Proof.
  intros H. unfold loadBlocksBody. rewrite H.
  destruct (block_name (parseBlock line)) as [nm |] eqn:E; [| done].
  unfold Spec.blockOfLine. rewrite E. cbn [ToString].
  do 2 f_equal. lia.
Qed.

Lemma loadBlocks_loop (lines : list (list Z)) : ∀ (bs : list BlockData) (n : nat),
  (∀ line, line ∈ filter (λ line, skippedLine line = false) lines →
           is_Some (block_name (parseBlock line))) →
  forOf loadBlocksBody (bs, Z.of_nat n) lines
  = ((bs ++ imap (λ i, Spec.blockOfLine (n + i))
                 (filter (λ line, skippedLine line = false) lines),
      Z.of_nat (n + length (filter (λ line, skippedLine line = false) lines))),
     Completed).
Proof.
  induction lines as [| line lines IH]; intros bs n Hnames; cbn [forOf].
  - rewrite filter_nil. cbn. by rewrite app_nil_r, Nat.add_0_r.
  - destruct (skippedLine line) eqn:E.
    + rewrite loadBlocksBody_skip by done.
      rewrite filter_cons_False in * by congruence. by apply IH.
    + rewrite loadBlocksBody_keep by done.
      rewrite filter_cons_True in * by done.
      destruct (Hnames line ltac:(left)) as [nm ->].
      rewrite IH by (intros; apply Hnames; by right).
      cbn [imap length]. rewrite Nat.add_0_r, <- app_assoc. cbn [app].
      replace (n + S (length (filter (λ line, skippedLine line = false) lines)))%nat
        with (S n + length (filter (λ line, skippedLine line = false) lines))%nat by lia.
      do 4 f_equal.
      apply imap_ext. intros i x _. cbn. f_equal. lia.
Qed.

Lemma loadBlocks_loop_completed (lines : list (list Z)) : ∀ (bs : list BlockData) (n : nat),
  (forOf loadBlocksBody (bs, Z.of_nat n) lines).2 = Completed →
  ∀ line, line ∈ filter (λ line, skippedLine line = false) lines →
          is_Some (block_name (parseBlock line)).
Proof.
  induction lines as [| line lines IH]; intros bs n Hdone x Hx.
  - rewrite filter_nil in Hx. by apply elem_of_nil in Hx.
  - cbn [forOf] in Hdone. destruct (skippedLine line) eqn:E.
    + rewrite loadBlocksBody_skip in Hdone by done.
      rewrite filter_cons_False in Hx by congruence. by eapply IH.
    + rewrite loadBlocksBody_keep in Hdone by done.
      rewrite filter_cons_True in Hx by done.
      destruct (block_name (parseBlock line)) as [nm |] eqn:Enm; [| discriminate].
      apply elem_of_cons in Hx as [-> | Hx]; [by rewrite Enm |].
      by eapply IH.
Qed.

(** X7.  [loadBlocks] completes exactly when every line that is neither a
    comment nor blank has a name field (a semicolon); it then replaces the
    block list by one block per such line, in file order, numbered 0, 1, 2,
    ..., each with the bounds and name parsed from its line and the colour
    of its name.  The other two members of the index are left as they are. *)
Theorem loadBlocks_spec (fileContent : list Z) (u : UnicodeData) :
  ((loadBlocks fileContent u).2 = Completed ↔
   ∀ line, line ∈ Spec.dataLines fileContent → is_Some (block_name (parseBlock line)))
  ∧ ((loadBlocks fileContent u).2 = Completed →
     blocks (loadBlocks fileContent u).1
     = imap Spec.blockOfLine (Spec.dataLines fileContent))
  ∧ data (loadBlocks fileContent u).1 = data u
  ∧ cjkData (loadBlocks fileContent u).1 = cjkData u.
Proof.
  unfold loadBlocks, Spec.dataLines.
  pose proof (loadBlocks_loop (split fileContent [10]) [] 0) as Hloop.
  pose proof (loadBlocks_loop_completed (split fileContent [10]) [] 0) as Hdone.
  change (Z.of_nat 0) with 0 in Hloop, Hdone.
  destruct (forOf loadBlocksBody ([], 0) (split fileContent [10])) as [[bs bid] o] eqn:E.
  cbn [fst snd blocks data cjkData] in *.
  split; [split |].
  - exact Hdone.
  - intros Hnames. specialize (Hloop Hnames). congruence.
  - split; [| done]. intros ->.
    specialize (Hloop (Hdone eq_refl)). injection Hloop as -> _. reflexivity.
Qed.

Lemma splitGo_dots (f : list Z) : ∀ cur : list Z,
  46 ∉ f →
  splitGo [46; 46] 0 cur f = [reverse cur ++ f]
  ∧ ∀ rest, splitGo [46; 46] 0 cur (f ++ 46 :: 46 :: rest)
            = (reverse cur ++ f) :: splitGo [46; 46] 0 [] rest.
Proof.
  induction f as [| x f IH]; intros cur Hdot.
  - split; [by rewrite app_nil_r |].
    intros rest. cbn. by rewrite app_nil_r.
  - apply not_elem_of_cons in Hdot as [Hne Hdot].
    destruct (IH (x :: cur) Hdot) as [IH1 IH2].
    rewrite reverse_cons, <- app_assoc in IH1, IH2. cbn [app] in IH1, IH2.
    cbn [app splitGo startsWith].
    destruct (Z.eqb_spec 46 x) as [Heq | _]; [congruence |]. cbn [andb].
    split; [exact IH1 | exact IH2].
Qed.

Lemma hexDigit_not_separator (s : list Z) :
  Forall (λ c, isHexDigit c = true) s → (46 ∉ s) ∧ (59 ∉ s).
Proof.
  intros Hall. split; intros Hin; rewrite Forall_forall in Hall;
    specialize (Hall _ Hin); discriminate.
Qed.

(** X8.  A line of [Blocks.txt] in its regular form, two runs of hexadecimal
    digits joined by [..], a semicolon and a name without semicolon, parses
    to the block whose bounds are the values of the two runs and whose name
    is the text after the semicolon, leading space included. *)
Theorem parseBlock_wellformed (s e name : list Z) :
  Spec.hexString s → Spec.hexString e → 59 ∉ name →
  parseBlock (s ++ lit ".." ++ e ++ lit ";" ++ name)
  = {| block_id := 0;
       block_start := Some (digitsValue s);
       block_end := Some (digitsValue e);
       block_name := Some name;
       block_color := [] |}.
Proof.
  intros [Hs Hsall] [He Heall] Hname.
  destruct (hexDigit_not_separator s Hsall) as [Hsdot Hssemi].
  destruct (hexDigit_not_separator e Heall) as [Hedot Hesemi].
  unfold parseBlock.
  assert (Hfields : split (s ++ lit ".." ++ e ++ lit ";" ++ name) (lit ";")
                    = [s ++ lit ".." ++ e; name]).
  { change (lit ";") with [59].
    replace (s ++ lit ".." ++ e ++ [59] ++ name)
      with (join [59] [s ++ lit ".." ++ e; name])
      by (cbn [join]; by rewrite <- !app_assoc).
    apply split_join; [done |].
    repeat constructor; [| done].
    rewrite !elem_of_app. intros [? | [Hin | ?]]; try done.
    change (lit "..") with [46; 46] in Hin.
    apply elem_of_cons in Hin as [Hin | Hin]; [discriminate |].
    apply elem_of_cons in Hin as [Hin | Hin]; [discriminate |].
    by apply elem_of_nil in Hin. }
  rewrite Hfields. cbn [lookup list_lookup ToString].
  assert (Hrange : split (s ++ lit ".." ++ e) (lit "..") = [s; e]).
  { unfold split. change (lit "..") with [46; 46]. cbn [app].
    destruct (splitGo_dots s [] Hsdot) as [_ H2]. rewrite H2.
    destruct (splitGo_dots e [] Hedot) as [H1 _]. rewrite H1. reflexivity. }
  rewrite Hrange. cbn [lookup list_lookup ToString].
  rewrite !parseInt16_hex by done. reflexivity.
Qed.

Lemma parseBlock_wellformed_witness :
  parseBlock (lit "0000..007F; Basic Latin")
  = {| block_id := 0; block_start := Some 0; block_end := Some 127;
       block_name := Some (lit " Basic Latin"); block_color := [] |}.
Proof.
  apply (parseBlock_wellformed (lit "0000") (lit "007F") (lit " Basic Latin")).
  - split; [discriminate | repeat constructor].
  - split; [discriminate | repeat constructor].
  - intros Hin. cbn in Hin.
    repeat (apply elem_of_cons in Hin as [Hin | Hin]; [discriminate |]).
    by apply elem_of_nil in Hin.
Defined.

(** ** Readings *)

Lemma loadCJKDataBody_step (cjk : gmap (option Z) CJKData) (line : list Z) :
  skippedLine line = false →
  ∃ cjk', loadCJKDataBody cjk line = Ok cjk'
          ∧ ∀ k, default [] (readings <$> cjk' !! k)
                 = default [] (readings <$> cjk !! k)
                   ++ (if decide ((parseCJKReading line).1 = k)
                       then [(parseCJKReading line).2] else []).
Proof.
  intros Hkeep. unfold loadCJKDataBody. rewrite Hkeep.
  destruct (parseCJKReading line) as [id reading]. cbn [fst snd].
  destruct (cjk !! id) as [d |] eqn:E.
  - rewrite E. eexists. split; [reflexivity |].
    intros k. rewrite lookup_insert. case_decide as Hk.
    + subst k. rewrite E. reflexivity.
    + by rewrite app_nil_r.
  - rewrite lookup_insert_eq. eexists. split; [reflexivity |].
    intros k. rewrite lookup_insert. case_decide as Hk.
    + subst k. rewrite E. reflexivity.
    + rewrite lookup_insert_ne by done. by rewrite app_nil_r.
Qed.

Lemma loadCJKData_loop (lines : list (list Z)) : ∀ cjk : gmap (option Z) CJKData,
  ∃ cjk', forOf loadCJKDataBody cjk lines = (cjk', Completed)
          ∧ ∀ k, default [] (readings <$> cjk' !! k)
                 = default [] (readings <$> cjk !! k)
                   ++ (snd <$> filter (λ pr, pr.1 = k)
                         (parseCJKReading
                            <$> filter (λ line, skippedLine line = false) lines)).
Proof.
  induction lines as [| line lines IH]; intros cjk; cbn [forOf].
  - exists cjk. split; [done |]. intros k. by rewrite app_nil_r.
  - destruct (skippedLine line) eqn:E.
    + unfold loadCJKDataBody at 1. rewrite E.
      rewrite filter_cons_False by congruence. apply IH.
    + destruct (loadCJKDataBody_step cjk line E) as (cjk1 & -> & H1).
      destruct (IH cjk1) as (cjk' & -> & H').
      exists cjk'. split; [done |]. intros k.
      rewrite H', H1, filter_cons_True, fmap_cons by done.
      rewrite <- app_assoc. f_equal.
      case_decide as Hk.
      * rewrite filter_cons_True by done. reflexivity.
      * rewrite filter_cons_False by done. reflexivity.
Qed.

(** X9.  [loadCJKData] never raises.  It replaces the reading table, and
    afterwards the readings of a code point are those of the lines, neither
    comments nor blank, that parse to it, in file order; a code point with no
    such line has none.  The other two members of the index are left as they
    are. *)
Theorem loadCJKData_spec (fileContent : list Z) (u : UnicodeData) :
  (loadCJKData fileContent u).2 = Completed
  ∧ (∀ id, getCJKReading (loadCJKData fileContent u).1 id
           = snd <$> filter (λ pr, pr.1 = Some id)
                       (parseCJKReading <$> Spec.dataLines fileContent))
  ∧ data (loadCJKData fileContent u).1 = data u
  ∧ blocks (loadCJKData fileContent u).1 = blocks u.
Proof.
  unfold loadCJKData, Spec.dataLines, getCJKReading.
  destruct (loadCJKData_loop (split fileContent [10]) ∅) as (cjk' & E & H').
  rewrite E. cbn [fst snd cjkData data blocks].
  split; [done |]. split; [| done].
  intros id. specialize (H' (Some id)). rewrite lookup_empty in H'. cbn in H'.
  rewrite <- H'. by destruct (cjk' !! Some id).
Qed.

(** ** More on the code-point loader *)

(** X10.  In a map the loader filled, every record is stored under its own
    id and has a name: the key of a record is its [id] field, and no stored
    name is [undefined]. *)
Theorem loadCodePoints_records (rangeStart rangeEnd : Z) (fileContent : list Z)
    (k : Z) (c : CodePointData) :
  (loadCodePoints rangeStart rangeEnd fileContent ∅).1 !! k = Some c →
  id c = Some k ∧ is_Some (name c).
Proof.
  unfold loadCodePoints.
  pose proof (forOf_invariant
    (λ st : Z * gmap Z CodePointData,
       ∀ k c, st.2 !! k = Some c → id c = Some k ∧ is_Some (name c))
    (addUnicodeDataBody rangeStart rangeEnd) (split fileContent [10]) (0, ∅)) as Hinv.
  destruct (forOf (addUnicodeDataBody rangeStart rangeEnd) (0, ∅) (split fileContent [10]))
    as [[rf d'] o].
  cbn [fst snd] in *. apply Hinv.
  - intros k' c'. by rewrite lookup_empty.
  - clear. intros [rf d] line st' _ Hd Hbody. cbn [fst snd] in *.
    apply addUnicodeDataBody_cases in Hbody
      as [-> | (cid & nm & Hid & Hcid & Hnm & [[_ ->] | [(_ & _ & ->) | [_ ->]]])];
      cbn [fst snd]; try done.
    + intros k c. rewrite addRange_lookup. case_decide; [| apply Hd].
      intros [= <-]. cbn. split; [done | by eexists].
    + intros k c. rewrite lookup_insert. case_decide; [| apply Hd].
      intros [= <-]. subst k. split; [done | by eexists].
Qed.

Lemma loadCodePoints_records_witness :
  id (Spec.cjkIdeograph 0x4E01 "CJK IDEOGRAPH 4E01") = Some 0x4E01
  ∧ is_Some (name (Spec.cjkIdeograph 0x4E01 "CJK IDEOGRAPH 4E01")).
Proof.
  apply (loadCodePoints_records 0 65535 Spec.cjkRangeFile 0x4E01).
  vm_compute. reflexivity.
Defined.

Lemma splitGo_cons (sep : list Z) (s : list Z) : ∀ (skip : nat) (cur : list Z),
  ∃ x l, splitGo sep skip cur s = x :: l.
Proof.
  induction s as [| c s IH]; intros skip cur; cbn [splitGo]; [by eexists _, _ |].
  destruct skip as [| skip]; [| apply IH].
  destruct (startsWith (c :: s) sep); [by eexists _, _ | apply IH].
Qed.

(** A line has a name field exactly when it holds a semicolon. *)
Lemma name_defined (line : list Z) :
  is_Some (name (parseCodePoint line)) ↔ 59 ∈ line.
Proof.
  unfold parseCodePoint. cbn [name]. change (lit ";") with [59]. split.
  - intros Hname. destruct (decide (59 ∈ line)) as [| Hnot]; [done |].
    unfold split in Hname.
    destruct (splitGo_field 59 line [] Hnot) as [E _]. rewrite E in Hname.
    by destruct Hname.
  - intros Hin.
    apply list_elem_of_split_l in Hin as (f & rest & -> & Hf).
    unfold split. destruct (splitGo_field 59 f [] Hf) as [_ E]. rewrite E.
    destruct (splitGo_cons [59] rest 0 []) as (x & l & ->). by eexists.
Qed.

Lemma forOf_completed {S A} (body : S → A → result S) (l : list A) : ∀ s,
  (∀ s x, x ∈ l → ∃ s', body s x = Ok s') →
  (forOf body s l).2 = Completed.
Proof.
  induction l as [| x l IH]; intros s Hok; cbn [forOf]; [done |].
  destruct (Hok s x ltac:(left)) as [s' ->].
  apply IH. intros s1 y Hy. apply Hok. by right.
Qed.

Lemma forOf_app {S A} (body : S → A → result S) (l1 l2 : list A) : ∀ s s1,
  forOf body s l1 = (s1, Completed) →
  forOf body s (l1 ++ l2) = forOf body s1 l2.
Proof.
  induction l1 as [| x l1 IH]; intros s s1; cbn [forOf app].
  - by intros [= <-].
  - destruct (body s x) as [s' |]; [apply IH | discriminate].
Qed.

(** X11.  The loader completes on every file each of whose lines holds a
    semicolon or has no parseable id (a blank line, a comment): no line of
    such a file makes it raise. *)
Theorem loadCodePoints_completes (rangeStart rangeEnd : Z) (fileContent : list Z)
    (d : gmap Z CodePointData) :
  (∀ line, line ∈ split fileContent [10] →
           59 ∈ line ∨ id (parseCodePoint line) = None) →
  (loadCodePoints rangeStart rangeEnd fileContent d).2 = Completed.
Proof.
  intros Hlines. unfold loadCodePoints.
  pose proof (forOf_completed (addUnicodeDataBody rangeStart rangeEnd)
                (split fileContent [10]) (0, d)) as Hdone.
  destruct (forOf (addUnicodeDataBody rangeStart rangeEnd) (0, d) (split fileContent [10]))
    as [[rf d'] o].
  cbn [snd] in *. apply Hdone. clear Hdone.
  intros st line Hline.
  destruct (Hlines line Hline) as [Hsemi | Hnan].
  - apply name_defined in Hsemi as [nm Hnm].
    unfold addUnicodeDataBody. destruct st as [rf1 d1].
    destruct (startsWith line (lit "#")); [by eexists |].
    destruct (ltNum (id (parseCodePoint line)) rangeStart
              || gtNum (id (parseCodePoint line)) rangeEnd); [by eexists |].
    destruct (id (parseCodePoint line)); [| by eexists].
    rewrite Hnm.
    repeat match goal with
           | |- context [if ?b then _ else _] => destruct b
           end; by eexists.
  - exists st. by apply addUnicodeDataBody_NaN.
Qed.

Lemma loadCodePoints_completes_witness :
  (loadCodePoints 0 65535 Spec.cjkRangeFile ∅).2 = Completed.
Proof.
  apply loadCodePoints_completes.
  rewrite cjkRangeFile_lines. intros line Hline.
  apply elem_of_cons in Hline as [-> | Hline].
  { left. apply name_defined. vm_compute. by eexists. }
  apply elem_of_cons in Hline as [-> | Hline].
  { left. apply name_defined. vm_compute. by eexists. }
  apply elem_of_cons in Hline as [-> | Hline]; [by right |].
  by apply elem_of_nil in Hline.
Defined.

(** X12.  A line with an id inside the scan bound and no semicolon makes
    the loader raise a [TypeError] (it reads [endsWith] of an [undefined]
    name); the load stops there, the lines after it are not read, and the map
    is left as the lines before it made it. *)
Theorem loadCodePoints_raises (rangeStart rangeEnd : Z) (fileContent : list Z)
    (d d' : gmap Z CodePointData) (pre post : list (list Z)) (bad : list Z)
    (rangeFirst cid : Z) :
  split fileContent [10] = pre ++ bad :: post →
  forOf (addUnicodeDataBody rangeStart rangeEnd) (0, d) pre = ((rangeFirst, d'), Completed) →
  startsWith bad (lit "#") = false →
  id (parseCodePoint bad) = Some cid →
  rangeStart ≤ cid ≤ rangeEnd →
  59 ∉ bad →
  loadCodePoints rangeStart rangeEnd fileContent d = (d', Threw).
Proof.
  intros Hlines Hpre Hcomment Hid Hbound Hsemi.
  unfold loadCodePoints. rewrite Hlines, (forOf_app _ _ _ _ _ Hpre). cbn [forOf].
  assert (Hname : name (parseCodePoint bad) = None).
  { destruct (name (parseCodePoint bad)) eqn:E; [| done].
    destruct Hsemi. apply name_defined. by rewrite E. }
  unfold addUnicodeDataBody. rewrite Hcomment, Hid, Hname. cbn [ltNum gtNum].
  destruct (Z.ltb_spec cid rangeStart); [lia |].
  destruct (Z.ltb_spec rangeEnd cid); [lia |]. reflexivity.
Qed.

Lemma loadCodePoints_raises_witness :
  loadCodePoints 0 65535
    (lit "0041;LATIN CAPITAL LETTER A;Lu;0;L;;;;;N;;;;0061;" ++ [10] ++ lit "0042"
     ++ [10] ++ lit "0043;LATIN CAPITAL LETTER C;Lu;0;L;;;;;N;;;;0063;") ∅
  = ({[ 0x41 := parseCodePoint (lit "0041;LATIN CAPITAL LETTER A;Lu;0;L;;;;;N;;;;0061;") ]},
     Threw).
Proof.
  apply (loadCodePoints_raises 0 65535 _ ∅ _
           [lit "0041;LATIN CAPITAL LETTER A;Lu;0;L;;;;;N;;;;0061;"]
           [lit "0043;LATIN CAPITAL LETTER C;Lu;0;L;;;;;N;;;;0063;"]
           (lit "0042") 0 0x42).
  - vm_compute. reflexivity.
  - vm_compute. reflexivity.
  - reflexivity.
  - reflexivity.
  - lia.
  - intros Hin. cbn in Hin.
    repeat (apply elem_of_cons in Hin as [Hin | Hin]; [discriminate |]).
    by apply elem_of_nil in Hin.
Defined.

Lemma addUnicodeDataBody_keeps (rangeStart rangeEnd : Z)
    (st st' : Z * gmap Z CodePointData) (line : list Z) (k : Z) :
  addUnicodeDataBody rangeStart rangeEnd st line = Ok st' →
  is_Some (st.2 !! k) → is_Some (st'.2 !! k).
Proof.
  destruct st as [rf d]. intros Hbody Hk. cbn [snd] in *.
  apply addUnicodeDataBody_cases in Hbody
    as [-> | (cid & nm & Hid & Hcid & Hnm & [[_ ->] | [(_ & _ & ->) | [_ ->]]])];
    cbn [snd]; try done.
  - rewrite addRange_lookup. case_decide; [by eexists | done].
  - rewrite lookup_insert. case_decide; [by eexists | done].
Qed.

Lemma forOf_keeps (rangeStart rangeEnd : Z) (lines : list (list Z))
    (st : Z * gmap Z CodePointData) (k : Z) :
  is_Some (st.2 !! k) →
  is_Some ((forOf (addUnicodeDataBody rangeStart rangeEnd) st lines).1.2 !! k).
Proof.
  intros Hk.
  apply (forOf_invariant (λ st : Z * gmap Z CodePointData, is_Some (st.2 !! k))); [done |].
  intros s x s' _ Hs Hbody. by eapply addUnicodeDataBody_keeps.
Qed.

Lemma addUnicodeDataBody_plain (rangeStart rangeEnd rangeFirst : Z)
    (d : gmap Z CodePointData) (line : list Z) (cid : Z) (nm : list Z) :
  startsWith line (lit "#") = false →
  id (parseCodePoint line) = Some cid →
  rangeStart ≤ cid ≤ rangeEnd →
  name (parseCodePoint line) = Some nm →
  endsWith nm (lit ">") = false →
  addUnicodeDataBody rangeStart rangeEnd (rangeFirst, d) line
  = Ok (rangeFirst, <[cid := parseCodePoint line]> d).
Proof.
  intros Hcomment Hid Hbound Hname Hgt. unfold addUnicodeDataBody.
  rewrite Hcomment, Hid, Hname, Hgt. cbn [ltNum gtNum].
  destruct (Z.ltb_spec cid rangeStart); [lia |].
  destruct (Z.ltb_spec rangeEnd cid); [lia |]. reflexivity.
Qed.

Lemma forOf_plain_stored (rangeStart rangeEnd : Z) (lines : list (list Z)) :
  ∀ (st st' : Z * gmap Z CodePointData),
  forOf (addUnicodeDataBody rangeStart rangeEnd) st lines = (st', Completed) →
  ∀ line cid nm,
    line ∈ lines →
    startsWith line (lit "#") = false →
    id (parseCodePoint line) = Some cid →
    rangeStart ≤ cid ≤ rangeEnd →
    name (parseCodePoint line) = Some nm →
    endsWith nm (lit ">") = false →
    is_Some (st'.2 !! cid).
Proof.
  induction lines as [| x lines IH]; intros st st' Hrun line cid nm Hin Hc Hid Hb Hn Hgt.
  - by apply elem_of_nil in Hin.
  - cbn [forOf] in Hrun.
    destruct (addUnicodeDataBody rangeStart rangeEnd st x) as [s1 |] eqn:Hbody;
      [| discriminate].
    apply elem_of_cons in Hin as [-> | Hin]; [| by eapply IH].
    destruct st as [rf d].
    rewrite (addUnicodeDataBody_plain _ _ _ _ _ cid nm) in Hbody by done.
    injection Hbody as <-.
    pose proof (forOf_keeps rangeStart rangeEnd lines (rf, <[cid := parseCodePoint x]> d) cid)
      as Hkeep.
    rewrite Hrun in Hkeep. apply Hkeep. cbn. rewrite lookup_insert_eq. by eexists.
Qed.

(** X13.  The loader never removes a record: an id present before a load
    is present after it (the map is not reset, unlike the block list and the
    reading table).  And when the load completes no regular line is lost:
    the id of every line inside the scan bound whose name does not end with
    [>] is present afterwards. *)
Theorem loadCodePoints_keeps (rangeStart rangeEnd : Z) (fileContent : list Z)
    (d : gmap Z CodePointData) :
  (∀ k, is_Some (d !! k) →
        is_Some ((loadCodePoints rangeStart rangeEnd fileContent d).1 !! k))
  ∧ ((loadCodePoints rangeStart rangeEnd fileContent d).2 = Completed →
     ∀ line cid nm,
       line ∈ split fileContent [10] →
       startsWith line (lit "#") = false →
       id (parseCodePoint line) = Some cid →
       rangeStart ≤ cid ≤ rangeEnd →
       name (parseCodePoint line) = Some nm →
       endsWith nm (lit ">") = false →
       is_Some ((loadCodePoints rangeStart rangeEnd fileContent d).1 !! cid)).
Proof.
  unfold loadCodePoints.
  pose proof (forOf_keeps rangeStart rangeEnd (split fileContent [10]) (0, d)) as Hkeep.
  pose proof (forOf_plain_stored rangeStart rangeEnd (split fileContent [10]) (0, d)) as Hplain.
  destruct (forOf (addUnicodeDataBody rangeStart rangeEnd) (0, d) (split fileContent [10]))
    as [[rf d'] o].
  cbn [fst snd] in *. split; [exact Hkeep |].
  intros ->. intros line cid nm. by apply (Hplain (rf, d') eq_refl).
Qed.

(** ** Names and labels *)

Lemma hexValue_upperUnit (c : Z) : hexValue (upperUnit c) = hexValue c.
Proof.
  unfold upperUnit.
  destruct (Z.leb_spec 97 c), (Z.leb_spec c 122); cbn [andb]; try reflexivity.
  unfold hexValue.
  destruct (Z.leb_spec 48 (c - 32)), (Z.leb_spec (c - 32) 57); try lia; cbn [andb].
  destruct (Z.leb_spec 48 c), (Z.leb_spec c 57); try lia; cbn [andb].
  destruct (Z.leb_spec 97 (c - 32)), (Z.leb_spec (c - 32) 102); try lia; cbn [andb].
  destruct (Z.leb_spec 97 c); try lia; cbn [andb].
  destruct (Z.leb_spec 65 (c - 32)); try lia; cbn [andb].
  destruct (Z.leb_spec (c - 32) 70), (Z.leb_spec c 102); try lia; cbn [andb].
  - f_equal. lia.
  - destruct (Z.leb_spec 65 c), (Z.leb_spec c 70); try lia; cbn [andb]. reflexivity.
Qed.

Lemma digitsValue_toUpperCase (s : list Z) : digitsValue (toUpperCase s) = digitsValue s.
Proof.
  induction s as [| c s IH] using rev_ind; [reflexivity |].
  unfold toUpperCase in *. rewrite fmap_app. cbn [fmap list_fmap].
  by rewrite !digitsValue_snoc, IH, hexValue_upperUnit.
Qed.

Lemma toUpperCase_hex (s : list Z) :
  Forall (λ c, isHexDigit c = true) s →
  Forall (λ c, isHexDigit c = true) (toUpperCase s).
Proof.
  intros Hs. unfold toUpperCase. apply Forall_fmap.
  eapply Forall_impl; [exact Hs |].
  intros c Hc. unfold compose, isHexDigit in *. by rewrite hexValue_upperUnit.
Qed.

(** X19.  The label the page prints for an id,
    [id.toString(16).toUpperCase().padStart(4, '0')], has at least four code
    units, all hexadecimal digits, and [parseInt(label, 16)] gives the id
    back, for every id from 0 on. *)
Theorem idHex_parse (n : Z) :
  0 ≤ n →
  parseInt16 (Page.idHex n) = Some n
  ∧ (4 ≤ length (Page.idHex n))%nat
  ∧ Forall (λ c, isHexDigit c = true) (Page.idHex n).
Proof.
  intros Hn. destruct (toString16_spec n Hn) as (Hne & Hall & Hval).
  pose proof (toUpperCase_hex _ Hall) as Hup.
  pose proof (padStart0_hex 4 _ Hup) as Hpad.
  unfold Page.idHex in *. split; [| split; [| exact Hpad]].
  - rewrite parseInt16_hex; [| | exact Hpad].
    + unfold padStart0. by rewrite digitsValue_zeros, digitsValue_toUpperCase, Hval.
    + unfold padStart0, toUpperCase.
      destruct (toString16 n); [done |]. intros H%app_eq_nil. by destruct H.
  - unfold padStart0. rewrite length_app, length_replicate. lia.
Qed.

Lemma idHex_parse_witness :
  parseInt16 (Page.idHex 0x41) = Some 0x41
  ∧ (4 ≤ length (Page.idHex 0x41))%nat
  ∧ Forall (λ c, isHexDigit c = true) (Page.idHex 0x41).
Proof. apply (idHex_parse 0x41). lia. Defined.

(** *** Names of the code points of a range *)

Lemma takeWhile_app_stop {A} (p : A → bool) (l rest : list A) :
  Forall (λ x, p x = true) l →
  match rest with [] => True | x :: _ => p x = false end →
  takeWhile p (l ++ rest) = l.
Proof.
  intros Hl Hrest. induction Hl as [| x l Hx _ IH]; cbn [app takeWhile].
  - destruct rest as [| y rest]; [done |]. cbn [takeWhile]. by rewrite Hrest.
  - by rewrite Hx, IH.
Qed.

(** A run of consonant letters, a non-empty run of vowel letters and a run
    of consonant letters: the concatenation determines the three. *)
Lemma syllable_parts (i v f i' v' f' : list Z) :
  Forall (λ c, Spec.isVowelLetter c = false) i →
  Forall (λ c, Spec.isVowelLetter c = false) i' →
  Forall (λ c, Spec.isVowelLetter c = true) v → v ≠ [] →
  Forall (λ c, Spec.isVowelLetter c = true) v' → v' ≠ [] →
  Forall (λ c, Spec.isVowelLetter c = false) f →
  Forall (λ c, Spec.isVowelLetter c = false) f' →
  i ++ v ++ f = i' ++ v' ++ f' → i = i' ∧ v = v' ∧ f = f'.
Proof.
  intros Hi Hi' Hv Hvne Hv' Hvne' Hf Hf' E.
  assert (Ei : i = i').
  { rewrite <- (takeWhile_app_stop (λ c, negb (Spec.isVowelLetter c)) i (v ++ f)),
            <- (takeWhile_app_stop (λ c, negb (Spec.isVowelLetter c)) i' (v' ++ f')).
    - by rewrite E.
    - eapply Forall_impl; [exact Hi' |]. cbn. by intros c ->.
    - destruct v' as [| x v']; [done |]. apply Forall_cons in Hv' as [Hx _].
      cbn. by rewrite Hx.
    - eapply Forall_impl; [exact Hi |]. cbn. by intros c ->.
    - destruct v as [| x v]; [done |]. apply Forall_cons in Hv as [Hx _].
      cbn. by rewrite Hx. }
  subst i'. apply app_inv_head in E.
  assert (Ev : v = v').
  { rewrite <- (takeWhile_app_stop Spec.isVowelLetter v f),
            <- (takeWhile_app_stop Spec.isVowelLetter v' f').
    - by rewrite E.
    - exact Hv'.
    - destruct Hf' as [| x f' Hx _]; [done | exact Hx].
    - exact Hv.
    - destruct Hf as [| x f Hx _]; [done | exact Hx]. }
  subst v'. apply app_inv_head in E. done.
Qed.

Lemma initials_letters :
  NoDup initials
  ∧ Forall (λ s, Forall (λ c, Spec.isVowelLetter c = false ∧ 97 ≤ c ≤ 122) s) initials.
Proof. split; apply (bool_decide_unpack _); vm_compute; exact I. Qed.

Lemma vowels_letters :
  NoDup vowels
  ∧ Forall (λ s, s ≠ [] ∧ Forall (λ c, Spec.isVowelLetter c = true ∧ 97 ≤ c ≤ 122) s) vowels.
Proof.
  split; apply (bool_decide_unpack _); vm_compute; exact I.
Qed.

Lemma finals_letters :
  NoDup finals
  ∧ Forall (λ s, Forall (λ c, Spec.isVowelLetter c = false ∧ 97 ≤ c ≤ 122) s) finals.
Proof. split; apply (bool_decide_unpack _); vm_compute; exact I. Qed.

Lemma hangul_name_parts (id : Z) :
  0xAC00 ≤ id ≤ 0xD7A3 →
  ∃ i v f,
    initials !! Z.to_nat ((id - 0xAC00) `div` 588) = Some i
    ∧ vowels !! Z.to_nat (((id - 0xAC00) `mod` 588) `div` 28) = Some v
    ∧ finals !! Z.to_nat ((id - 0xAC00) `mod` 28) = Some f
    ∧ getHangulSyllableName id = i ++ v ++ f.
Proof.
  intros Hid. destruct (hangul_indices id Hid) as (Hi & Hv & Hf).
  unfold getHangulSyllableName.
  change 0xAC00 with 44032 in *.
  set (order := id - 44032) in *.
  assert (Horder : 0 ≤ order) by (subst order; lia).
  rewrite !Z.rem_mod_nonneg by lia.
  rewrite !index_nonneg by lia.
  destruct (lookup_lt_is_Some_2 initials (Z.to_nat (order `div` 588))) as [i Ei];
    [change (length initials) with 19%nat; lia |].
  destruct (lookup_lt_is_Some_2 vowels (Z.to_nat ((order `mod` 588) `div` 28))) as [v Ev];
    [change (length vowels) with 21%nat; lia |].
  destruct (lookup_lt_is_Some_2 finals (Z.to_nat (order `mod` 28))) as [f Ef];
    [change (length finals) with 28%nat; lia |].
  exists i, v, f. rewrite Ei, Ev, Ef. done.
Qed.

Lemma toUpperCase_lower_inj (s t : list Z) :
  Forall (λ c, 97 ≤ c ≤ 122) s → Forall (λ c, 97 ≤ c ≤ 122) t →
  toUpperCase s = toUpperCase t → s = t.
Proof.
  unfold toUpperCase. intros Hs. revert t.
  induction Hs as [| x s Hx _ IH]; intros [| y t] Ht E; try done.
  apply Forall_cons in Ht as [Hy Ht]. cbn [fmap list_fmap] in E.
  injection E as Exy E. f_equal; [| by apply IH].
  unfold upperUnit in Exy.
  destruct (Z.leb_spec 97 x), (Z.leb_spec x 122), (Z.leb_spec 97 y), (Z.leb_spec y 122);
    cbn [andb] in Exy; lia.
Qed.

Lemma getHangulSyllableName_inj (a b : Z) :
  0xAC00 ≤ a ≤ 0xD7A3 → 0xAC00 ≤ b ≤ 0xD7A3 →
  toUpperCase (getHangulSyllableName a) = toUpperCase (getHangulSyllableName b) → a = b.
Proof.
  intros Ha Hb E.
  destruct (hangul_name_parts a Ha) as (i & v & f & Ei & Ev & Ef & Na).
  destruct (hangul_name_parts b Hb) as (i' & v' & f' & Ei' & Ev' & Ef' & Nb).
  destruct (hangul_indices a Ha) as (Hia & Hva & Hfa).
  destruct (hangul_indices b Hb) as (Hib & Hvb & Hfb).
  destruct initials_letters as [Di Li], vowels_letters as [Dv Lv], finals_letters as [Df Lf].
  pose proof (proj1 (Forall_lookup _ _) Li _ _ Ei) as Pi.
  pose proof (proj1 (Forall_lookup _ _) Li _ _ Ei') as Pi'.
  destruct (proj1 (Forall_lookup _ _) Lv _ _ Ev) as [Nv Pv].
  destruct (proj1 (Forall_lookup _ _) Lv _ _ Ev') as [Nv' Pv'].
  pose proof (proj1 (Forall_lookup _ _) Lf _ _ Ef) as Pf.
  pose proof (proj1 (Forall_lookup _ _) Lf _ _ Ef') as Pf'.
  rewrite Na, Nb in E.
  apply toUpperCase_lower_inj in E;
    [| repeat (apply Forall_app; split); eapply Forall_impl; eauto; cbn; tauto ..].
  apply syllable_parts in E as (<- & <- & <-);
    try (eapply Forall_impl; eauto; cbn; tauto); try done.
  pose proof (NoDup_lookup _ _ _ _ Di Ei Ei') as Qi.
  pose proof (NoDup_lookup _ _ _ _ Dv Ev Ev') as Qv.
  pose proof (NoDup_lookup _ _ _ _ Df Ef Ef') as Qf.
  change 0xAC00 with 44032 in *. change 0xD7A3 with 55203 in *.
  apply Z2Nat.inj in Qi, Qv, Qf; try lia.
  revert Qi Qv Qf. clear. intros. Z.div_mod_to_equations. lia.
Qed.

Lemma toString16_upper_inj (a b : Z) :
  0 ≤ a → 0 ≤ b → toUpperCase (toString16 a) = toUpperCase (toString16 b) → a = b.
Proof.
  intros Ha Hb E. apply (f_equal digitsValue) in E.
  rewrite !digitsValue_toUpperCase in E.
  destruct (toString16_spec a Ha) as (_ & _ & Va), (toString16_spec b Hb) as (_ & _ & Vb).
  congruence.
Qed.

Lemma rangeItemName_inj (rangeName : list Z) (a b : Z) :
  (if includes rangeName (lit "Hangul")
   then 0xAC00 ≤ a ≤ 0xD7A3 ∧ 0xAC00 ≤ b ≤ 0xD7A3
   else 0 ≤ a ∧ 0 ≤ b) →
  rangeItemName rangeName a = rangeItemName rangeName b → a = b.
Proof.
  unfold rangeItemName, toUpperCase.
  destruct (includes rangeName (lit "Hangul")); intros [Ha Hb] E;
    rewrite !fmap_app in E; do 2 apply app_inv_head in E.
  - by apply getHangulSyllableName_inj.
  - by apply toString16_upper_inj.
Qed.

(** X20.  [addRange] gives the code points of a range pairwise distinct
    names: for a range that starts at 0 or above, and lies within the Hangul
    syllables [0xAC00, 0xD7A3] when its name contains [Hangul], two
    different ids of the range are stored with their own id and with
    different names. *)
Theorem addRange_names_distinct (rangeFirst rangeLast : Z) (rangeName : list Z)
    (c : CodePointData) (d : gmap Z CodePointData) (a b : Z) :
  (if includes rangeName (lit "Hangul")
   then 0xAC00 ≤ rangeFirst ∧ rangeLast ≤ 0xD7A3
   else 0 ≤ rangeFirst) →
  rangeFirst ≤ a ≤ rangeLast → rangeFirst ≤ b ≤ rangeLast → a ≠ b →
  ∃ ca cb,
    addRange rangeFirst rangeLast rangeName c d !! a = Some ca
    ∧ addRange rangeFirst rangeLast rangeName c d !! b = Some cb
    ∧ id ca = Some a ∧ id cb = Some b
    ∧ is_Some (name ca) ∧ is_Some (name cb)
    ∧ name ca ≠ name cb.
Proof.
  intros Hrange Ha Hb Hab.
  exists (withIdName c a (rangeItemName rangeName a)),
         (withIdName c b (rangeItemName rangeName b)).
  rewrite !addRange_lookup, !decide_True by lia. cbn [id name].
  split; [reflexivity |]. split; [reflexivity |].
  split; [reflexivity |]. split; [reflexivity |].
  split; [by eexists |]. split; [by eexists |].
  intros [= E]. apply Hab. apply (rangeItemName_inj rangeName); [| exact E].
  destruct (includes rangeName (lit "Hangul")); lia.
Qed.

Lemma addRange_names_distinct_witness :
  ∃ ca cb,
    addRange 0xAC00 0xAC02 (lit "Hangul Syllable")
      (parseCodePoint (lit "D7A3;<Hangul Syllable, Last>;Lo;0;L;;;;;N;;;;;")) ∅ !! 0xAC00
    = Some ca
    ∧ addRange 0xAC00 0xAC02 (lit "Hangul Syllable")
        (parseCodePoint (lit "D7A3;<Hangul Syllable, Last>;Lo;0;L;;;;;N;;;;;")) ∅ !! 0xAC01
      = Some cb
    ∧ id ca = Some 0xAC00 ∧ id cb = Some 0xAC01
    ∧ is_Some (name ca) ∧ is_Some (name cb)
    ∧ name ca ≠ name cb.
Proof.
  apply (addRange_names_distinct 0xAC00 0xAC02 (lit "Hangul Syllable")
           (parseCodePoint (lit "D7A3;<Hangul Syllable, Last>;Lo;0;L;;;;;N;;;;;")) ∅
           0xAC00 0xAC01).
  - change (includes (lit "Hangul Syllable") (lit "Hangul")) with true. cbv beta iota. lia.
  - lia.
  - lia.
  - lia.
Defined.

(** ** A line of the readings file *)

(** X21.  A line of the readings file in its regular form, [U+] and a run
    of hexadecimal digits, a tab, a field-tag, a tab and a text, both
    without tab, parses to the value of the digits with that field-tag and
    that text. *)
Theorem parseCJKReading_wellformed (s fld txt : list Z) :
  Spec.hexString s → 9 ∉ fld → 9 ∉ txt →
  parseCJKReading (lit "U+" ++ s ++ [9] ++ fld ++ [9] ++ txt)
  = (Some (digitsValue s), {| field := Some fld; text := Some txt |}).
Proof.
  intros [Hne Hall] Hfld Htxt. unfold parseCJKReading.
  assert (Hfields : split (lit "U+" ++ s ++ [9] ++ fld ++ [9] ++ txt) [9]
                    = [lit "U+" ++ s; fld; txt]).
  { change (lit "U+" ++ s ++ [9] ++ fld ++ [9] ++ txt)
      with (join [9] [lit "U+" ++ s; fld; txt]).
    apply split_join; [done |].
    repeat (apply Forall_cons_2; [| ]); [| exact Hfld | exact Htxt | apply Forall_nil_2].
    change (lit "U+" ++ s) with (85 :: 43 :: s).
    rewrite !not_elem_of_cons. split; [lia |]. split; [lia |].
    intros Hin. rewrite Forall_forall in Hall. specialize (Hall _ Hin). discriminate. }
  rewrite Hfields. cbn [lookup list_lookup ToString].
  change (removeFirst (lit "U+" ++ s) (lit "U+")) with s.
  by rewrite parseInt16_hex.
Qed.

Lemma parseCJKReading_wellformed_witness :
  parseCJKReading (lit "U+" ++ lit "4E00" ++ [9] ++ lit "kMandarin" ++ [9] ++ lit "yi")
  = (Some (digitsValue (lit "4E00")),
     {| field := Some (lit "kMandarin"); text := Some (lit "yi") |}).
Proof.
  apply (parseCJKReading_wellformed (lit "4E00") (lit "kMandarin") (lit "yi")).
  - split; [discriminate |]. repeat constructor.
  - apply (bool_decide_unpack _). vm_compute. exact I.
  - apply (bool_decide_unpack _). vm_compute. exact I.
Defined.

(** ** The three loaders in sequence *)

(** X22.  [initUnicodeData] fills each part of the index from its own file:
    the code points are what the code-point loader makes of
    [UnicodeData.txt] from an empty map, the blocks what [loadBlocks] makes
    of [Blocks.txt] and the readings what [loadCJKData] makes of the
    readings file, each as on a fresh index.  It completes exactly when the
    first two loaders do, the third never raising; a loader that raises
    leaves the parts of the later ones empty. *)
Theorem initUnicodeData_parts (unicodeTxt blocksTxt cjkTxt : list Z) :
  let r := initUnicodeData unicodeTxt blocksTxt cjkTxt in
  let d := loadCodePoints 0 65535 unicodeTxt ∅ in
  let b := loadBlocks blocksTxt newUnicodeData in
  let c := loadCJKData cjkTxt newUnicodeData in
  data r.1 = d.1
  ∧ (r.2 = Completed ↔ d.2 = Completed ∧ b.2 = Completed)
  ∧ (d.2 = Completed → blocks r.1 = blocks b.1)
  ∧ (d.2 = Threw → blocks r.1 = [])
  ∧ (r.2 = Completed → cjkData r.1 = cjkData c.1)
  ∧ (r.2 = Threw → cjkData r.1 = ∅).
Proof.
  cbv zeta. unfold initUnicodeData, addUnicodeData, loadBlocks, loadCJKData.
  cbn [data blocks cjkData newUnicodeData].
  destruct (loadCodePoints 0 65535 unicodeTxt ∅) as [d [|]]; cbn [fst snd];
    [| by repeat split; try done; intros [? ?]].
  destruct (forOf loadBlocksBody ([], 0) (split blocksTxt [10])) as [[bs n] [|]];
    cbn [fst snd data blocks cjkData];
    [| by repeat split; try done; intros [? ?]].
  destruct (loadCJKData_loop (split cjkTxt [10]) ∅) as (cjk & E & _).
  rewrite E. cbn [fst snd data blocks cjkData].
  by repeat split.
Qed.

(** ** Seeding twice *)

Lemma initialize_unfold (p : Pool) :
  initialize p = foldl initializeBody p (seqZ 0 65536).
Proof. unfold initialize. reflexivity. Qed.

(** X23.  [initialize] does not check whether the pool is already seeded:
    a second call appends the same items again, so that every known id of
    [0, 0xFFFF] then has two items in the pool. *)
Theorem initialize_twice (p : Pool) :
  items (initialize (initialize p))
  = items p
    ++ ((λ id, {| item_id := id; weight := 1%float |})
          <$> filter (λ id, is_Some (getCodePoint (unicodeData p) id)) (seqZ 0 65536))
    ++ ((λ id, {| item_id := id; weight := 1%float |})
          <$> filter (λ id, is_Some (getCodePoint (unicodeData p) id)) (seqZ 0 65536)).
Proof.
  rewrite (initialize_unfold (initialize p)).
  destruct (initialize_loop (seqZ 0 65536) (initialize p)) as (_ & _ & Hi2).
  rewrite Hi2. clear Hi2.
  rewrite (initialize_unfold p).
  destruct (initialize_loop (seqZ 0 65536) p) as (Hu & _ & Hi).
  rewrite Hu, Hi. by rewrite <- app_assoc.
Qed.

(** ** Outside the Hangul syllables *)

(** X25.  Outside [0xAC00, 0xD7A3] the table of initials has no entry at
    the computed position, and the name [getHangulSyllableName] returns
    starts with the text [undefined]. *)
Theorem getHangulSyllableName_outside (id : Z) :
  ¬ (0xAC00 ≤ id ≤ 0xD7A3) →
  startsWith (getHangulSyllableName id) (lit "undefined") = true.
Proof.
  intros Hout. unfold getHangulSyllableName.
  assert (Hinitial : index initials ((id - 0xAC00) `div` 588) = None).
  { change 0xAC00 with 44032 in *. change 0xD7A3 with 55203 in *.
    assert (Hq : (id - 44032) `div` 588 < 0 ∨ 19 ≤ (id - 44032) `div` 588)
      by (Z.div_mod_to_equations; lia).
    unfold index. destruct (Z.ltb_spec ((id - 44032) `div` 588) 0) as [| Hnn]; [done |].
    apply lookup_ge_None_2. change (length initials) with 19%nat. lia. }
  rewrite Hinitial. reflexivity.
Qed.

Lemma getHangulSyllableName_outside_witness :
  startsWith (getHangulSyllableName 0xD7A4) (lit "undefined") = true.
Proof. apply (getHangulSyllableName_outside 0xD7A4). lia. Defined.

(** ** More on the pool *)

Lemma scan_elem (l : list PoolItem) : ∀ (r : float) (item : PoolItem),
  scan r l = Some item → item ∈ l.
Proof.
  induction l as [| x l IH]; intros r item; cbn [scan]; [done |].
  destruct (r <? weight x)%float.
  - intros [= <-]. left.
  - intros H. right. by eapply IH.
Qed.

Lemma draw_elem (p : Pool) (amount : Z) (random : nat → float) (item : PoolItem) :
  item ∈ draw p amount random → item ∈ items p.
Proof.
  unfold draw.
  destruct ((length (items p) =? 0)%nat || (amount <=? 0)%Z);
    [intros H; by apply elem_of_nil in H |].
  rewrite draw_loop. cbn [app].
  intros (i & _ & Hscan)%list_elem_of_omap. by eapply scan_elem.
Qed.

Lemma seeded_items (l : list Z) (p : Pool) (item : PoolItem) :
  items p = [] →
  item ∈ items (foldl initializeBody p l) →
  ∃ id, item = {| item_id := id; weight := 1 |}
        ∧ id ∈ l
        ∧ is_Some (getCodePoint (unicodeData (foldl initializeBody p l)) id).
Proof.
  intros Hempty Hin.
  destruct (initialize_loop l p) as (Hu & _ & Hi).
  rewrite Hi, Hempty in Hin. cbn [app] in Hin.
  apply list_elem_of_fmap in Hin as (id & -> & Hid).
  apply list_elem_of_filter in Hid as [Hknown Hrange].
  exists id. rewrite Hu. split; [reflexivity |]. split; [exact Hrange | exact Hknown].
Qed.

(** X14.  Whatever the random values, every item drawn from a pool that
    [initialize] seeded from no items is an item of weight 1 whose id lies
    in [0, 0xFFFF] and is known to the pool's index. *)
Theorem initialized_pool_draw (p : Pool) (amount : Z) (random : nat → float) :
  items p = [] →
  Forall (λ item, (0 ≤ item_id item ≤ 0xFFFF)%Z
                  ∧ weight item = 1%float
                  ∧ is_Some (getCodePoint (unicodeData (initialize p)) (item_id item)))
         (draw (initialize p) amount random).
Proof.
  intros Hempty. apply Forall_forall. intros item Hin.
  apply draw_elem in Hin. rewrite initialize_unfold in Hin |- *.
  destruct (seeded_items (seqZ 0 65536) p item Hempty Hin) as (id & -> & Hrange & Hknown).
  apply elem_of_seqZ in Hrange. cbn [item_id weight].
  split; [lia |]. split; [reflexivity | exact Hknown].
Qed.

Lemma initialized_pool_draw_witness :
  Forall (λ item, (0 ≤ item_id item ≤ 0xFFFF)%Z
                  ∧ weight item = 1%float
                  ∧ is_Some (getCodePoint
                               (unicodeData (initialize (newPool (Some Spec.smallIndex) None)))
                               (item_id item)))
         (draw (initialize (newPool (Some Spec.smallIndex) None)) 3 (λ i, 0.5%float)).
Proof.
  exact (initialized_pool_draw (newPool (Some Spec.smallIndex) None) 3 (λ i, 0.5%float) eq_refl).
Defined.

Lemma getCardData_known (u : UnicodeData) (id : Z) :
  is_Some (getCodePoint u id) →
  (∀ r, r ∈ getCJKReading u id → is_Some (field r)) →
  ∃ card, getCardData u id = Ok (Some card) ∧ card_id card = id.
Proof.
  intros [c Hc] Hreadings. unfold getCardData.
  rewrite Hc, (mapM_readingLine _ Hreadings). cbn [bind].
  eexists. split; reflexivity.
Qed.

Lemma mapM_cards (u : UnicodeData) (l : list PoolItem) :
  (∀ item, item ∈ l →
     ∃ card, getCardData u (item_id item) = Ok (Some card) ∧ card_id card = item_id item) →
  ∃ cards, mapM (λ item, getCardData u (item_id item)) l = Ok (Some <$> cards)
           ∧ card_id <$> cards = item_id <$> l.
Proof.
  induction l as [| x l IH]; intros Hall.
  - by exists [].
  - destruct (Hall x ltac:(left)) as (card & Hcard & Hid).
    destruct IH as (cards & Hcards & Hids); [intros; apply Hall; by right |].
    exists (card :: cards). cbn [mapM]. rewrite Hcard, Hcards. cbn [bind].
    split; [reflexivity |]. cbn [fmap list_fmap]. by rewrite Hid, <- Hids.
Qed.

(** X15.  On a pool that [initialize] seeded from no items, and an index
    whose readings all have their field-tag, [drawCard] does not raise and
    returns no absent card: it returns one card per drawn item, in order,
    each with the id of its item. *)
Theorem drawCard_initialized (p : Pool) (amount : Z) (random : nat → float) :
  items p = [] →
  (∀ id r, r ∈ getCJKReading (unicodeData p) id → is_Some (field r)) →
  ∃ cards,
    drawCard (initialize p) amount random = Ok (Some <$> cards)
    ∧ card_id <$> cards = item_id <$> draw (initialize p) amount random.
Proof.
  intros Hempty Hreadings. unfold drawCard.
  apply mapM_cards. intros item Hin. apply draw_elem in Hin.
  rewrite initialize_unfold in Hin |- *.
  destruct (seeded_items (seqZ 0 65536) p item Hempty Hin) as (id & -> & _ & Hknown).
  cbn [item_id].
  apply getCardData_known; [exact Hknown |].
  destruct (initialize_loop (seqZ 0 65536) p) as (Hu & _ & _).
  intros r. rewrite Hu. apply Hreadings.
Qed.

Lemma drawCard_initialized_witness :
  ∃ cards,
    drawCard (initialize (newPool (Some Spec.smallIndex) None)) 3 (λ i, 0.5%float)
    = Ok (Some <$> cards)
    ∧ card_id <$> cards
      = item_id <$> draw (initialize (newPool (Some Spec.smallIndex) None)) 3 (λ i, 0.5%float).
Proof.
  apply (drawCard_initialized (newPool (Some Spec.smallIndex) None) 3 (λ i, 0.5%float) eq_refl).
  intros id r. unfold getCJKReading.
  change (cjkData (unicodeData (newPool (Some Spec.smallIndex) None)))
    with (cjkData Spec.smallIndex).
  unfold Spec.smallIndex. cbn [cjkData].
  destruct (decide (Some 0x4E00%Z = Some id)) as [<- | Hne].
  - rewrite lookup_singleton_eq. cbn [readings].
    intros Hin. apply list_elem_of_singleton in Hin as ->. eexists. reflexivity.
  - rewrite lookup_singleton_ne by exact Hne.
    intros Hin. destruct (proj1 (elem_of_nil r) Hin).
Defined.

Lemma omap_all_None {A B} (g : A → option B) (l : list A) :
  (∀ x, g x = None) → omap g l = [].
Proof. intros Hg. induction l as [| x l IH]; cbn; [done |]. by rewrite Hg. Qed.

(** *** Weights all 1

    Subtracting 1 from a double of [1, 2^53) is exact, so the scan counts
    the integer part of the scaled random value down to zero. *)

(** The number of binary digits is determined by the powers of two around. *)
Lemma digits2_pos_unique (m : positive) (d : Z) :
  2 ^ (d - 1) ≤ Z.pos m < 2 ^ d → Z.pos (digits2_pos m) = d.
Proof.
  intros [Hlo Hhi]. pose proof (digits2_pos_bounds m) as [Lo Hi].
  assert (0 < d).
  { destruct (Z.le_gt_cases d 0) as [Hd |]; [| done].
    assert (2 ^ d ≤ 2 ^ 0) by (destruct (Z.lt_ge_cases d 0);
      [rewrite Z.pow_neg_r by lia; cbn; lia | apply Z.pow_le_mono_r; lia]).
    cbn in *. lia. }
  destruct (Z.lt_trichotomy (Z.pos (digits2_pos m)) d) as [Hlt | [Heq | Hgt]]; [| done |].
  - assert (2 ^ Z.pos (digits2_pos m) ≤ 2 ^ (d - 1)) by (apply Z.pow_le_mono_r; lia). lia.
  - assert (2 ^ d ≤ 2 ^ (Z.pos (digits2_pos m) - 1)) by (apply Z.pow_le_mono_r; lia). lia.
Qed.

Lemma fexp64 (e : Z) : fexp prec emax e = Z.max (e - 53) (-1074).
Proof. reflexivity. Qed.

(** Shifting out zero bits is exact. *)
Lemma shr_1_exact (m : Z) :
  0 ≤ m → (2 | m) →
  shr_1 {| shr_m := m; shr_r := false; shr_s := false |}
  = {| shr_m := m / 2; shr_r := false; shr_s := false |}.
Proof.
  intros Hm [q Hq]. destruct m as [| [p | p |] | p]; cbn [shr_1 orb]; try lia.
  - reflexivity.
  - f_equal. rewrite Pos2Z.inj_xO. by rewrite Z.mul_comm, Z.div_mul.
Qed.

Lemma iter_shr_1_exact (k : positive) : ∀ m : Z,
  0 ≤ m → (2 ^ Z.pos k | m) →
  SpecFloat.iter_pos shr_1 k {| shr_m := m; shr_r := false; shr_s := false |}
  = {| shr_m := m / 2 ^ Z.pos k; shr_r := false; shr_s := false |}.
Proof.
  induction k as [k IH | k IH |]; intros m Hm Hdiv; cbn [SpecFloat.iter_pos].
  - assert (Hk : 2 ^ Z.pos k~1 = 2 * (2 ^ Z.pos k * 2 ^ Z.pos k)).
    { replace (Z.pos k~1) with (1 + (Z.pos k + Z.pos k)) by lia.
      rewrite !Z.pow_add_r by lia. by rewrite Z.pow_1_r. }
    assert (Hp : 0 < 2 ^ Z.pos k) by (apply Z.pow_pos_nonneg; lia).
    destruct Hdiv as [q Hq]. rewrite Hk in Hq |- *.
    rewrite shr_1_exact; [| lia | exists (q * (2 ^ Z.pos k * 2 ^ Z.pos k)); lia].
    assert (E1 : m / 2 = q * (2 ^ Z.pos k * 2 ^ Z.pos k)).
    { subst m. rewrite Z.mul_assoc, (Z.mul_comm _ 2), <- Z.mul_assoc, (Z.mul_comm 2).
      rewrite Z.div_mul by lia. lia. }
    rewrite E1.
    rewrite IH; [| nia | exists (q * 2 ^ Z.pos k); lia].
    assert (E2 : q * (2 ^ Z.pos k * 2 ^ Z.pos k) / 2 ^ Z.pos k = q * 2 ^ Z.pos k).
    { rewrite Z.mul_assoc. apply Z.div_mul. lia. }
    rewrite E2.
    rewrite IH; [| nia | exists q; lia].
    f_equal. rewrite Z.div_mul by lia. subst m.
    symmetry. rewrite Z.div_mul by nia. reflexivity.
  - assert (Hk : 2 ^ Z.pos k~0 = 2 ^ Z.pos k * 2 ^ Z.pos k).
    { replace (Z.pos k~0) with (Z.pos k + Z.pos k) by lia.
      by rewrite Z.pow_add_r by lia. }
    assert (Hp : 0 < 2 ^ Z.pos k) by (apply Z.pow_pos_nonneg; lia).
    destruct Hdiv as [q Hq]. rewrite Hk in Hq |- *.
    rewrite IH; [| lia | exists (q * 2 ^ Z.pos k); lia].
    assert (E2 : m / 2 ^ Z.pos k = q * 2 ^ Z.pos k).
    { subst m. rewrite Z.mul_assoc. apply Z.div_mul. lia. }
    rewrite E2.
    rewrite IH; [| nia | exists q; lia].
    f_equal. rewrite Z.div_mul by lia. subst m.
    symmetry. rewrite Z.div_mul by nia. reflexivity.
  - apply shr_1_exact; [done |]. by rewrite Z.pow_1_r in Hdiv.
Qed.

(** A double built from a mantissa that already has 53 digits is that
    mantissa and exponent. *)
Lemma binary_round_aux_canonical (m : positive) (e : Z) :
  Z.pos (digits2_pos m) = 53 → -1074 ≤ e ≤ 971 →
  binary_round_aux prec emax false (Z.pos m) e loc_Exact = S754_finite false m e.
Proof.
  intros Hd He. unfold binary_round_aux, shr_fexp.
  cbn [Zdigits2 shr_record_of_loc]. rewrite Hd, fexp64.
  replace (Z.max (53 + e - 53) (-1074) - e) with 0 by lia.
  cbn [shr shr_m loc_of_shr_record round_nearest_even Zdigits2 shr_record_of_loc].
  rewrite Hd, fexp64.
  replace (Z.max (53 + e - 53) (-1074) - e) with 0 by lia.
  cbn [shr shr_m].
  destruct (Z.leb_spec e (emax - prec)) as [_ | H]; [reflexivity |].
  change (emax - prec) with 971 in H. lia.
Qed.

(** Rounding a positive integer [M], scaled by 2^-52, that fits in 53
    digits once its trailing zero bits are dropped: the double has the same
    value, written with 53 digits. *)
Lemma binary_round_exact (M : positive) :
  Z.pos (digits2_pos M) ≤ 105 →
  (53 < Z.pos (digits2_pos M) → (2 ^ (Z.pos (digits2_pos M) - 53) | Z.pos M)) →
  ∃ m' : positive,
    binary_round prec emax false M (-52)
    = S754_finite false m' (Z.pos (digits2_pos M) - 105)
    ∧ Z.pos m' / 2 ^ (105 - Z.pos (digits2_pos M)) = Z.pos M / 2 ^ 52.
Proof.
  intros Hd Hdiv.
  pose proof (digits2_pos_bounds M) as [Lo Hi].
  set (d := Z.pos (digits2_pos M)) in *.
  assert (Hd1 : 1 ≤ d) by (subst d; lia).
  unfold binary_round. rewrite fexp64. fold d.
  replace (Z.max (d + -52 - 53) (-1074)) with (d - 105) by lia.
  unfold shl_align.
  replace (d - 105 - -52) with (d - 53) by lia.
  destruct (d - 53) as [| k | s] eqn:Ek.
  - (* d = 53 *)
    exists M. rewrite binary_round_aux_canonical by (fold d; lia).
    replace (d - 105) with (-52) by lia. split; [reflexivity |].
    replace (105 - d) with 52 by lia. reflexivity.
  - (* d > 53: the low k bits are zero *)
    assert (Hk : Z.pos k = d - 53) by lia.
    destruct (Hdiv ltac:(lia)) as [q Hq].
    assert (Hp : 0 < 2 ^ Z.pos k) by (apply Z.pow_pos_nonneg; lia).
    assert (Hq0 : 0 < q) by nia.
    destruct q as [| q |]; try lia.
    assert (Hdq : Z.pos (digits2_pos q) = 53).
    { apply digits2_pos_unique.
      replace d with (53 + Z.pos k) in Lo, Hi by lia.
      replace (53 + Z.pos k - 1) with (52 + Z.pos k) in Lo by lia.
      rewrite Z.pow_add_r in Lo, Hi by lia. rewrite Hq in Lo, Hi.
      change (53 - 1) with 52. split; nia. }
    exists q. split.
    + unfold binary_round_aux, shr_fexp.
      cbn [Zdigits2 shr_record_of_loc]. fold d. rewrite fexp64.
      replace (Z.max (d + -52 - 53) (-1074) - -52) with (Z.pos k) by lia.
      cbn [shr].
      rewrite iter_shr_1_exact by (lia || by exists (Z.pos q)).
      rewrite Hq, Z.div_mul by lia.
      cbn [shr_m loc_of_shr_record round_nearest_even Zdigits2 shr_record_of_loc].
      rewrite Hdq, fexp64.
      replace (Z.max (53 + (-52 + Z.pos k) - 53) (-1074) - (-52 + Z.pos k)) with 0 by lia.
      cbn [shr shr_m].
      destruct (Z.leb_spec (-52 + Z.pos k) (emax - prec)) as [_ | H].
      * f_equal. lia.
      * change (emax - prec) with 971 in H. lia.
    + rewrite Hq.
      replace (2 ^ 52) with (2 ^ Z.pos k * 2 ^ (105 - d))
        by (rewrite <- Z.pow_add_r by lia; f_equal; lia).
      rewrite <- Z.div_div by (try lia; apply Z.pow_pos_nonneg; lia).
      by rewrite Z.div_mul by lia.
  - (* d < 53: shifted left *)
    assert (Hs : Z.pos s = 53 - d) by lia.
    assert (Hp : 0 < 2 ^ Z.pos s) by (apply Z.pow_pos_nonneg; lia).
    exists (Pos.iter xO M s). split.
    + apply binary_round_aux_canonical; [| lia].
      apply digits2_pos_unique. rewrite iter_xO.
      replace (2 ^ (53 - 1)) with (2 ^ (d - 1) * 2 ^ Z.pos s)
        by (rewrite <- Z.pow_add_r by lia; f_equal; lia).
      replace (2 ^ 53) with (2 ^ d * 2 ^ Z.pos s)
        by (rewrite <- Z.pow_add_r by lia; f_equal; lia).
      split; nia.
    + rewrite iter_xO.
      replace (2 ^ (105 - d)) with (2 ^ 52 * 2 ^ Z.pos s)
        by (rewrite <- Z.pow_add_r by lia; f_equal; lia).
      rewrite Z.div_mul_cancel_r by lia. reflexivity.
Qed.
Lemma pow2_digits_le (M : positive) (n : Z) :
  Z.pos M < 2 ^ n → Z.pos (digits2_pos M) ≤ n.
Proof.
  intros H. pose proof (digits2_pos_bounds M) as [Lo _].
  destruct (Z.le_gt_cases (Z.pos (digits2_pos M)) n) as [| Hgt]; [done |].
  assert (2 ^ n ≤ 2 ^ (Z.pos (digits2_pos M) - 1)).
  { destruct (Z.lt_ge_cases n 0); [rewrite Z.pow_neg_r in H by lia; lia |].
    apply Z.pow_le_mono_r; lia. }
  lia.
Qed.

(** A double in [1, 2^53) minus 1, where [o] is the mantissa 2^52 of the
    doubles 1 and 2^53: the difference is exact. *)
Lemma SFsub_one_exact (o : positive) (x : spec_float) :
  Z.pos o = 4503599627370496 →
  valid_binary x = true →
  SFleb (S754_zero false) x = true →
  SFltb x (S754_finite false o (-52)) = false →
  SFltb x (S754_finite false o 1) = true →
  SFleb (S754_zero false) (SF64sub x (S754_finite false o (-52))) = true
  ∧ SFltb (SF64sub x (S754_finite false o (-52))) (S754_finite false o 1) = true
  ∧ Spec.floorSF (SF64sub x (S754_finite false o (-52))) = Spec.floorSF x - 1
  ∧ 1 ≤ Spec.floorSF x.
Proof.
  intros Ho V.
  destruct x as [s | s | | s m e]; try destruct s; try discriminate.
  cbn [valid_binary] in V. destruct (bounded_digits _ _ V) as (Dm & Em & Nm).
  pose proof (digits2_pos_bounds m) as [Lo Hi].
  intros _ H1 H53.
  unfold SFltb, SFcompare in H1, H53.
  rewrite Pos.compare_cont_spec in H1, H53. unfold Pos.switch_Eq in H1, H53.
  assert (He : -52 ≤ e ≤ 0 ∧ Z.pos (digits2_pos m) = 53).
  { destruct (Z.compare_spec e (-52)) as [Heq | Hlt | Hgt]; [| discriminate H1 |];
      (destruct (Z.compare_spec e 1) as [Heq' | Hlt' | Hgt'];
       [| lia | discriminate H53]); [lia |].
    exfalso. assert (Hd : Z.pos (digits2_pos m) = 53) by lia.
    rewrite Hd in Lo. change (2 ^ (53 - 1)) with 4503599627370496 in Lo.
    destruct (Pos.compare_spec m o) as [E | E | E];
      [discriminate H53 | apply Pos2Z.pos_lt_pos in E; lia | discriminate H53]. }
  clear H1 H53.
  destruct He as [He Hd]. rewrite Hd in Lo, Hi.
  change (2 ^ (53 - 1)) with 4503599627370496 in Lo.
  change (2 ^ 53) with 9007199254740992 in Hi.
  (* the aligned mantissa *)
  assert (Ha : ∃ a : positive,
            fst (shl_align m e (Z.min e (-52))) = a
            ∧ Z.pos a = Z.pos m * 2 ^ (e + 52)).
  { unfold shl_align. rewrite Z.min_r by lia.
    destruct (-52 - e) as [| k | k] eqn:Ek; [| lia |].
    - exists m. split; [reflexivity |]. replace (e + 52) with 0 by lia. lia.
    - exists (Pos.iter xO m k). split; [reflexivity |].
      rewrite iter_xO. do 2 f_equal. lia. }
  destruct Ha as (a & Ea & Va).
  assert (Hp : 0 < 2 ^ (e + 52)) by (apply Z.pow_pos_nonneg; lia).
  assert (Hp' : 0 < 2 ^ (- e)) by (apply Z.pow_pos_nonneg; lia).
  assert (H52 : 4503599627370496 = 2 ^ (- e) * 2 ^ (e + 52)).
  { rewrite <- Z.pow_add_r by lia. replace (- e + (e + 52)) with 52 by lia. reflexivity. }
  assert (Hfloor : Spec.floorSF (S754_finite false m e) = Z.pos a / 4503599627370496).
  { unfold Spec.floorSF. cbn [cond_Zopp]. rewrite Va, H52, Z.div_mul_cancel_r by lia.
    destruct (Z.leb_spec 0 e) as [H0 | H0]; [| reflexivity].
    replace e with 0 by lia. cbn. by rewrite Z.div_1_r, Z.mul_1_r. }
  rewrite Hfloor.
  assert (Hage : 4503599627370496 ≤ Z.pos a).
  { rewrite Va. assert (2 ^ (- e) ≤ 2 ^ 52) by (apply Z.pow_le_mono_r; lia).
    change (2 ^ 52) with 4503599627370496 in *. nia. }
  assert (Hone : 1 ≤ Z.pos a / 4503599627370496)
    by (apply Z.div_le_lower_bound; lia).
  unfold SF64sub, SFsub. rewrite Ea.
  replace (shl_align o (-52) (Z.min e (-52))) with (o, -52)
    by (rewrite Z.min_r by lia; reflexivity).
  cbn [fst cond_Zopp]. rewrite Z.min_r by lia. rewrite Ho.
  destruct (Z.pos a - 4503599627370496) as [| M | M] eqn:EM; [| | lia].
  - cbn [binary_normalize].
    split; [reflexivity |]. split; [reflexivity |]. split; [| exact Hone].
    replace (Z.pos a) with 4503599627370496 by lia. reflexivity.
  - cbn [binary_normalize].
    assert (HaU : Z.pos a < 2 ^ (105 + e)).
    { rewrite Va. replace (105 + e) with (53 + (e + 52)) by lia.
      rewrite (Z.pow_add_r 2 53 (e + 52)) by lia. change (2 ^ 53) with 9007199254740992.
      apply Z.mul_lt_mono_pos_r; lia. }
    assert (HdM : Z.pos (digits2_pos M) ≤ 105 + e) by (apply pow2_digits_le; lia).
    destruct (binary_round_exact M) as (m' & -> & Hm'); [lia | |].
    { intros Hbig.
      assert (Hdiv : (2 ^ (Z.pos (digits2_pos M) - 53) | 2 ^ (e + 52))).
      { exists (2 ^ (e + 52 - (Z.pos (digits2_pos M) - 53))).
        rewrite <- Z.pow_add_r by lia. f_equal. lia. }
      replace (Z.pos M) with (Z.pos a - 4503599627370496) by lia.
      apply Z.divide_sub_r.
      - rewrite Va. by apply Z.divide_mul_r.
      - rewrite H52. by apply Z.divide_mul_r. }
    split; [reflexivity |].
    split.
    { unfold SFltb, SFcompare.
      destruct (Z.compare_spec (Z.pos (digits2_pos M) - 105) 1); [lia | reflexivity | lia]. }
    split; [| exact Hone].
    assert (HM52 : Z.pos M / 2 ^ 52 = Z.pos a / 4503599627370496 - 1).
    { change (2 ^ 52) with 4503599627370496.
      replace (Z.pos M) with (Z.pos a + (-1) * 4503599627370496) by lia.
      rewrite Z.div_add by lia. lia. }
    rewrite <- HM52, <- Hm'.
    unfold Spec.floorSF. cbn [cond_Zopp].
    destruct (Z.leb_spec 0 (Z.pos (digits2_pos M) - 105)) as [H0 | H0].
    + replace (Z.pos (digits2_pos M) - 105) with 0 by lia.
      replace (105 - Z.pos (digits2_pos M)) with 0 by lia.
      cbn. by rewrite Z.div_1_r, Z.mul_1_r.
    + do 2 f_equal. lia.
Qed.

Lemma SFlt_one_floor (o : positive) (x : spec_float) :
  Z.pos o = 4503599627370496 →
  valid_binary x = true →
  SFleb (S754_zero false) x = true →
  SFltb x (S754_finite false o (-52)) = true →
  Spec.floorSF x = 0.
Proof.
  intros Ho V.
  destruct x as [s | s | | s m e]; try destruct s; try discriminate; try reflexivity.
  cbn [valid_binary] in V. destruct (bounded_digits _ _ V) as (Dm & Em & Nm).
  pose proof (digits2_pos_bounds m) as [_ Hi].
  intros _ H1. unfold SFltb, SFcompare in H1.
  rewrite Pos.compare_cont_spec in H1. unfold Pos.switch_Eq in H1.
  unfold Spec.floorSF. cbn [cond_Zopp].
  assert (Hm : Z.pos m < 2 ^ 53).
  { eapply Z.lt_le_trans; [exact Hi |]. apply Z.pow_le_mono_r; lia. }
  destruct (Z.compare_spec e (-52)) as [Heq | Hlt | Hgt]; [| | discriminate H1].
  - destruct (Pos.compare_spec m o) as [E | E | E];
      [discriminate H1 | | discriminate H1].
    apply Pos2Z.pos_lt_pos in E. subst e.
    change (0 <=? -52) with false. cbv iota. change (- -52) with 52.
    change (2 ^ 52) with 4503599627370496. apply Z.div_small. lia.
  - destruct (Z.leb_spec 0 e); [lia |].
    apply Z.div_small. split; [lia |].
    eapply Z.lt_le_trans; [exact Hm |]. apply Z.pow_le_mono_r; lia.
Qed.

Lemma sub_one (r : float) :
  (0 <=? r)%float = true → (r <? 1)%float = false → (r <? 0x1p53)%float = true →
  (0 <=? r - 1)%float = true ∧ (r - 1 <? 0x1p53)%float = true
  ∧ Spec.floor (r - 1) = Spec.floor r - 1 ∧ 1 ≤ Spec.floor r.
Proof.
  unfold Spec.floor.
  rewrite !FloatAxioms.leb_spec, !FloatAxioms.ltb_spec, FloatAxioms.sub_spec.
  change (Prim2SF 0) with (S754_zero false).
  change (Prim2SF 1) with (S754_finite false 4503599627370496 (-52)).
  change (Prim2SF 0x1p53) with (S754_finite false 4503599627370496 1).
  apply SFsub_one_exact; [reflexivity | apply FloatAxioms.Prim2SF_valid].
Qed.

Lemma lt_one (r : float) :
  (0 <=? r)%float = true → (r <? 1)%float = true → Spec.floor r = 0.
Proof.
  unfold Spec.floor. rewrite FloatAxioms.leb_spec, FloatAxioms.ltb_spec.
  change (Prim2SF 0) with (S754_zero false).
  change (Prim2SF 1) with (S754_finite false 4503599627370496 (-52)).
  apply SFlt_one_floor; [reflexivity | apply FloatAxioms.Prim2SF_valid].
Qed.

Lemma scan_uniform (l : list PoolItem) : ∀ r : float,
  Forall (λ item, weight item = 1%float) l →
  (0 <=? r)%float = true → (r <? 0x1p53)%float = true →
  scan r l = l !! Z.to_nat (Spec.floor r).
Proof.
  induction l as [| x l IH]; intros r Hone H0 H53; cbn [scan]; [done |].
  apply Forall_cons in Hone as [Hx Hone]. cbn beta in Hx. rewrite Hx.
  destruct (r <? 1)%float eqn:E.
  - by rewrite (lt_one r).
  - destruct (sub_one r H0 E H53) as (H0' & H53' & Hfloor & H1).
    rewrite IH, Hfloor by done.
    replace (Z.to_nat (Spec.floor r)) with (S (Z.to_nat (Spec.floor r - 1))) by lia.
    reflexivity.
Qed.

Lemma omap_ext_in {A B} (f g : A → option B) (l : list A) :
  (∀ x, x ∈ l → f x = g x) → omap f l = omap g l.
Proof.
  induction l as [| x l IH]; intros H; [done |]. cbn [omap list_omap].
  rewrite (H x) by left. rewrite IH by (intros; apply H; by right). done.
Qed.

(** X16.  On a pool whose items all have weight 1, as [initialize] seeds
    them, an iteration whose scaled random value, the double
    [Math.random() * totalWeight], lies in [0, 2^53) selects the item at the
    position that is the integer part of that double, and no item when that
    position is past the end: [draw] returns, in order, the items at those
    positions. *)
Theorem draw_uniform (p : Pool) (amount : Z) (random : nat → float) :
  Forall (λ item, weight item = 1%float) (items p) →
  (∀ i, (i < Z.to_nat amount)%nat →
        (0 <=? random i * totalWeight (items p))%float = true
        ∧ (random i * totalWeight (items p) <? 0x1p53)%float = true) →
  draw p amount random
  = omap (λ i, items p !! Z.to_nat (Spec.floor (random i * totalWeight (items p))))
         (seq 0 (Z.to_nat amount)).
Proof.
  intros Hone Hrandom. unfold draw.
  destruct (items p) as [| x l] eqn:Eitems.
  { cbn [length Nat.eqb orb]. symmetry. apply omap_all_None. intros i. apply lookup_nil. }
  cbn [length Nat.eqb orb].
  destruct (Z.leb_spec amount 0) as [Hle | Hgt].
  { replace (Z.to_nat amount) with 0%nat by lia. reflexivity. }
  rewrite draw_loop. cbn [app].
  apply omap_ext_in. intros i Hi. apply elem_of_seq in Hi.
  destruct (Hrandom i ltac:(lia)) as [H0 H53].
  by apply scan_uniform.
Qed.

Lemma draw_uniform_witness :
  draw Spec.pool_ten 1 (λ _, 0x1.6666666666666p-1%float)
  = [ {| item_id := 7; weight := 1 |} ].
Proof.
  rewrite (draw_uniform Spec.pool_ten 1 (λ _, 0x1.6666666666666p-1%float)).
  - vm_compute. reflexivity.
  - vm_compute. repeat constructor.
  - intros i _. split; vm_compute; reflexivity.
Defined.

Lemma eqb_zero (w : float) :
  (w =? 0)%float = true → ∃ s, Prim2SF w = S754_zero s.
Proof.
  rewrite FloatAxioms.eqb_spec. change (Prim2SF 0) with (S754_zero false).
  destruct (Prim2SF w) as [sx | sx | | sx mx ex];
    try destruct sx; try discriminate; by eexists.
Qed.

Lemma totalWeight_zero (l : list PoolItem) :
  Forall (λ item, (weight item =? 0)%float = true) l →
  ∃ s, Prim2SF (totalWeight l) = S754_zero s.
Proof.
  unfold totalWeight. intros Hzero.
  assert (H : ∀ a, (∃ s, Prim2SF a = S754_zero s) →
              ∃ s, Prim2SF (foldl (λ sum item, (sum + weight item)%float) a l) = S754_zero s).
  { induction Hzero as [| x l Hx _ IH]; intros a Ha; cbn [foldl]; [exact Ha |].
    apply IH. destruct Ha as [sa Ha], (eqb_zero _ Hx) as [sx Ex].
    rewrite FloatAxioms.add_spec, Ha, Ex. destruct sa, sx; by eexists. }
  apply H. by exists false.
Qed.

Lemma scan_zero (l : list PoolItem) : ∀ r : float,
  Forall (λ item, (weight item =? 0)%float = true) l →
  (Prim2SF r = S754_nan ∨ ∃ s, Prim2SF r = S754_zero s) →
  scan r l = None.
Proof.
  induction l as [| x l IH]; intros r Hzero Hr; cbn [scan]; [done |].
  apply Forall_cons in Hzero as [Hx Hzero]. cbn beta in Hx.
  destruct (eqb_zero _ Hx) as [sx Ex].
  rewrite FloatAxioms.ltb_spec, Ex.
  destruct Hr as [Hr | [s Hr]]; rewrite Hr; cbn.
  - apply IH; [done |]. left. by rewrite FloatAxioms.sub_spec, Hr.
  - apply IH; [done |]. right. rewrite FloatAxioms.sub_spec, Hr, Ex. destruct s, sx; by eexists.
Qed.

Lemma mul_zero (r t : float) :
  (∃ s, Prim2SF t = S754_zero s) →
  Prim2SF (r * t)%float = S754_nan ∨ ∃ s, Prim2SF (r * t)%float = S754_zero s.
Proof.
  intros [s Ht]. rewrite FloatAxioms.mul_spec, Ht.
  destruct (Prim2SF r) as [sx | sx | | sx mx ex]; cbn; [right | left | left | right];
    by eexists || done.
Qed.

(** X17.  On a pool whose weights are all zero [draw] returns the empty
    list, whatever the amount and the random values, although the pool has
    items: the scaled random value is a zero (or not a number) and no weight
    exceeds it. *)
Theorem draw_zero_weights (p : Pool) (amount : Z) (random : nat → float) :
  Forall (λ item, (weight item =? 0)%float = true) (items p) →
  draw p amount random = [].
Proof.
  intros Hzero. unfold draw.
  destruct ((length (items p) =? 0)%nat || (amount <=? 0)%Z); [reflexivity |].
  rewrite draw_loop. cbn [app].
  apply omap_all_None. intros i.
  apply scan_zero; [exact Hzero |].
  apply mul_zero, totalWeight_zero, Hzero.
Qed.

Lemma draw_zero_weights_witness : draw Spec.pool_0_0 5 (λ _, 0.5%float) = [].
Proof.
  apply (draw_zero_weights Spec.pool_0_0 5 (λ _, 0.5%float)).
  repeat constructor.
Defined.

(** X18.  Drawing [a + b] items is drawing [a] items and then [b] more
    with the random values that follow: the iterations of [draw] share
    nothing but the pool. *)
Theorem draw_add (p : Pool) (a b : Z) (random : nat → float) :
  (0 ≤ a)%Z → (0 ≤ b)%Z →
  draw p (a + b) random
  = draw p a random ++ draw p b (λ i, random (Z.to_nat a + i)%nat).
Proof.
  intros Ha Hb. unfold draw.
  destruct (length (items p) =? 0)%nat; [reflexivity |]. cbn [orb].
  rewrite !draw_loop. cbn [app].
  assert (Hsplit : omap (λ i, scan (random i * totalWeight (items p)) (items p))
                     (seq 0 (Z.to_nat (a + b)))
                   = omap (λ i, scan (random i * totalWeight (items p)) (items p))
                       (seq 0 (Z.to_nat a))
                     ++ omap (λ i, scan (random (Z.to_nat a + i)%nat * totalWeight (items p))
                                     (items p))
                          (seq 0 (Z.to_nat b))).
  { rewrite Z2Nat.inj_add by lia. rewrite seq_app, omap_app. f_equal.
    cbn [Nat.add].
    replace (seq (Z.to_nat a) (Z.to_nat b))
      with ((λ i, Z.to_nat a + i)%nat <$> seq 0 (Z.to_nat b))
      by (rewrite fmap_add_seq; f_equal; lia).
    induction (seq 0 (Z.to_nat b)) as [| i l IH]; cbn; [reflexivity |].
    rewrite IH. reflexivity. }
  destruct (Z.leb_spec (a + b) 0), (Z.leb_spec a 0), (Z.leb_spec b 0); try lia.
  - reflexivity.
  - replace a with 0%Z in * by lia. rewrite Hsplit. reflexivity.
  - replace b with 0%Z in * by lia. rewrite Hsplit. cbn. reflexivity.
  - exact Hsplit.
Qed.

Lemma draw_add_witness :
  draw Spec.pool_1_3 (1 + 2) (λ i, match i with O => 0 | 1%nat => 0.25 | _ => 0.75 end%float)
  = draw Spec.pool_1_3 1 (λ i, match i with O => 0 | 1%nat => 0.25 | _ => 0.75 end%float)
    ++ draw Spec.pool_1_3 2 (λ i, match (Z.to_nat 1 + i)%nat with O => 0 | 1%nat => 0.25 | _ => 0.75 end%float).
Proof.
  apply (draw_add Spec.pool_1_3 1 2 (λ i, match i with O => 0 | 1%nat => 0.25 | _ => 0.75 end%float)); lia.
Defined.
